(** * scripts/create-service.py: the microservice scaffolder

    A shallow embedding of [create_service] and of the script's
    [__main__] block, over a model of the part of the operating system the
    script touches: [sys.argv], standard output, and a file system of
    directories and regular text files.

    Conventions of the model.
    - A Python [str] is a Rocq [string], one [ascii] per character (code
      points below 256).
    - A Python [int] is a [Z].
    - A [pathlib.Path] is the list of its components below its root; the
      [/] operator parses its right operand as pathlib does.  The root is
      [/], or [//] where a name begins with exactly two slashes; the
      operating system reads both alike, so the root is kept beside the
      components only where a path is printed.
    - The file system is a finite map from resolved paths to nodes; the
      operating system resolves [..] while it walks a path.  There are no
      symbolic links and no permissions, and a text file holds the [str]
      written to it (no encoding, no newline translation).
    - The file system of the model takes a name and a path of any length.
      Linux refuses a component above [NAME_MAX] bytes and a path of
      [PATH_MAX] bytes or more; [fits] says that a path is within these
      limits, the range in which the [stat], [mkdir] and [open] of the
      model answer as those of Linux do.
    - A computation is a function from the world (file system, standard
      output) to a result or a raised exception and the world it leaves. *)

From Stdlib Require Import ZArith Ascii DecimalString DecimalZ DecimalPos.
From stdpp Require Import base option list strings gmap fin_maps.

Set Warnings "-register-all".
Open Scope Z_scope.

(* ===================================================================== *)
(** * Strings *)

(** The double-quote character, and [q s], the text [s] between double
    quotes. *)
Definition dquote : ascii := "034"%char.
Definition q (s : string) : string := String dquote s +:+ String dquote "".

(** The line-feed character. *)
Definition LF : ascii := "010"%char.

(** [unlines ls]: every line followed by a line feed, as in a
    triple-quoted literal whose lines all end inside the quotes. *)
Fixpoint unlines (ls : list string) : string :=
  match ls with
  | [] => ""
  | l :: ls => l +:+ String LF (unlines ls)
  end.

(** [lines s]: the lines of [s], split at line feeds; a final line feed
    does not open an empty last line. *)
Fixpoint lines (s : string) : list string :=
  match s with
  | "" => []
  | String c r =>
      if decide (c = LF) then "" :: lines r
      else match lines r with
           | [] => [String c ""]
           | h :: t => String c h :: t
           end
  end.

(** [has_char c s]: [c in s] for a character. *)
Fixpoint has_char (c : ascii) (s : string) : bool :=
  match s with
  | "" => false
  | String x r => bool_decide (x = c) || has_char c r
  end.

(** [str(port)] for a Python [int]: decimal digits, [-] before a negative
    number. *)
Definition str_of_int (n : Z) : string := NilZero.string_of_int (Z.to_int n).

(** [sep.join(parts)]. *)
Fixpoint str_join (sep : string) (parts : list string) : string :=
  match parts with
  | [] => ""
  | [x] => x
  | x :: rest => x +:+ sep +:+ str_join sep rest
  end.

(** [is_substring pat s]: [pat in s]. *)
Fixpoint is_prefix (pat s : string) : bool :=
  match pat, s with
  | "", _ => true
  | String a pat', String b s' => if decide (a = b) then is_prefix pat' s' else false
  | String _ _, "" => false
  end.
Fixpoint is_substring (pat s : string) : bool :=
  is_prefix pat s ||
  match s with
  | "" => false
  | String _ s' => is_substring pat s'
  end.

(* ===================================================================== *)
(** * Paths *)

Abbreviation path := (list string).

(** Splitting at every [/]; a string without [/] is one field. *)
Fixpoint split_slash (s : string) : list string :=
  match s with
  | "" => [""]
  | String c r =>
      if decide (c = "/"%char) then "" :: split_slash r
      else match split_slash r with
           | [] => [String c ""]
           | h :: t => String c h :: t
           end
  end.

(** The components pathlib keeps: empty fields and [.] are dropped, [..]
    stays as it is. *)
Definition path_parts (s : string) : path :=
  filter (λ c, c ≠ "" ∧ c ≠ ".") (split_slash s).

Definition is_absolute (s : string) : bool :=
  match s with
  | String c _ => bool_decide (c = "/"%char)
  | "" => false
  end.

(** [p / s]: an absolute right operand replaces the left one. *)
Definition path_div (p : path) (s : string) : path :=
  if is_absolute s then path_parts s else p ++ path_parts s.
Infix "/:" := path_div (at level 40, left associativity).

(** The root pathlib splits off a string: none for a relative one, [//]
    for one that begins with exactly two slashes, [/] for one slash and
    for three or more. *)
Definition path_root (s : string) : string :=
  match s with
  | String "/" (String "/" (String "/" _)) => "/"
  | String "/" (String "/" _) => "//"
  | String "/" _ => "/"
  | _ => ""
  end.

(** The root of [p / s] for a left operand of root [r]: an absolute right
    operand brings its own. *)
Definition root_div (r : string) (s : string) : string :=
  if is_absolute s then path_root s else r.

(** [Path.parent]: lexical, the root is its own parent. *)
Definition parent (p : path) : path := removelast p.

(** [str(p)] of an absolute path with the root [r] and the components
    [p]. *)
Definition path_str (r : string) (p : path) : string := r +:+ str_join "/" p.

(* ===================================================================== *)
(** * The file system *)

Inductive node :=
  | Dir
  | File (content : string).

Global Instance node_eq_dec : EqDecision node.
Proof. solve_decision. Defined.

Abbreviation filesystem := (gmap (list string) node).

Inductive errno := ENOENT | EEXIST | ENOTDIR | EISDIR.

Global Instance errno_eq_dec : EqDecision errno.
Proof. solve_decision. Defined.

(** Walking down from directory [cur] through the components [p], each of
    which has to be a directory.  The result is the resolved directory. *)
Fixpoint resolve_dir (fs : filesystem) (cur : path) (p : path) : errno + path :=
  match p with
  | [] => inr cur
  | c :: rest =>
      if decide (c = "..") then resolve_dir fs (parent cur) rest
      else match fs !! (cur ++ [c]) with
           | Some Dir => resolve_dir fs (cur ++ [c]) rest
           | Some (File _) => inl ENOTDIR
           | None => inl ENOENT
           end
  end.

Definition split_last (p : path) : option (path * string) :=
  match reverse p with
  | [] => None
  | l :: rinit => Some (reverse rinit, l)
  end.

(** Path resolution up to the last component: the resolved location and
    the node found there, if any.  The root and [d/..] are directories.
    A name of any length is looked up; Linux refuses the ones beyond
    [NAME_MAX] and [PATH_MAX], for which see [fits]. *)
Definition lookup_path (fs : filesystem) (p : path) : errno + (path * option node) :=
  match split_last p with
  | None => inr ([], Some Dir)
  | Some (d, l) =>
      match resolve_dir fs [] d with
      | inl e => inl e
      | inr d' =>
          if decide (l = "..") then inr (parent d', Some Dir)
          else inr (d' ++ [l], fs !! (d' ++ [l]))
      end
  end.

(** [os.stat]. *)
Definition os_stat (fs : filesystem) (p : path) : errno + node :=
  match lookup_path fs p with
  | inl e => inl e
  | inr (_, Some n) => inr n
  | inr (_, None) => inl ENOENT
  end.

(** [os.mkdir]. *)
Definition os_mkdir (fs : filesystem) (p : path) : errno + filesystem :=
  match lookup_path fs p with
  | inl e => inl e
  | inr (_, Some _) => inl EEXIST
  | inr (k, None) => inr (<[k := Dir]> fs)
  end.

(** [open(p, "w")], the write of [content] and the close: the file is
    created, or truncated when it is there. *)
Definition os_write (fs : filesystem) (p : path) (content : string)
  : errno + filesystem :=
  match lookup_path fs p with
  | inl e => inl e
  | inr (_, Some Dir) => inl EISDIR
  | inr (k, _) => inr (<[k := File content]> fs)
  end.

(** Reading a regular file back. *)
Definition read_file (fs : filesystem) (p : path) : option string :=
  match os_stat fs p with
  | inr (File c) => Some c
  | _ => None
  end.

(** [Path.exists()] and [Path.is_dir()]: a failing [stat] is [False]. *)
Definition Path_exists (fs : filesystem) (p : path) : bool :=
  match os_stat fs p with inr _ => true | inl _ => false end.
Definition Path_is_dir (fs : filesystem) (p : path) : bool :=
  match os_stat fs p with inr Dir => true | _ => false end.

(* ===================================================================== *)
(** * Computations *)

Inductive exn :=
  | SystemExit (code : Z)
  | ValueError
  | OSError (e : errno).

Record world := World { w_fs : filesystem; w_out : list string }.

Definition M (A : Type) : Type := world → (exn + A) * world.

Global Instance M_ret : MRet M := λ A a w, (inr a, w).
Global Instance M_bind : MBind M := λ A B f m w,
  match m w with
  | (inl e, w') => (inl e, w')
  | (inr a, w') => f a w'
  end.

Definition raise {A} (e : exn) : M A := λ w, (inl e, w).

(** [print(s)] writes [s] and a line feed. *)
Definition line (s : string) : string := s +:+ String LF "".
Definition print (s : string) : M unit :=
  λ w, (inr tt, World (w_fs w) (w_out w ++ [line s])).

(** [sys.exit(code)]. *)
Definition sys_exit {A} (code : Z) : M A := raise (SystemExit code).

(** [for x in xs: body(x)]. *)
Fixpoint for_each {A} (xs : list A) (body : A → M unit) : M unit :=
  match xs with
  | [] => mret tt
  | x :: xs => body x ;; for_each xs body
  end.

Definition lift_os (r : errno + filesystem) : M unit := λ w,
  match r with
  | inr fs' => (inr tt, World fs' (w_out w))
  | inl e => (inl (OSError e), w)
  end.

(** [Path.mkdir(parents, exist_ok)] as pathlib writes it: [os.mkdir],
    then on [FileNotFoundError] the parents and a second attempt, and on
    any other [OSError] the [exist_ok] test.  The fuel counts the
    components left above [p]. *)
Fixpoint Path_mkdir_rec (n : nat) (p : path) (parents exist_ok : bool) : M unit :=
  λ w,
  match os_mkdir (w_fs w) p with
  | inr fs' => (inr tt, World fs' (w_out w))
  | inl ENOENT =>
      if negb parents || bool_decide (parent p = p) then (inl (OSError ENOENT), w)
      else match n with
           | O => (inl (OSError ENOENT), w)
           | S n' =>
               (Path_mkdir_rec n' (parent p) true true ;;
                Path_mkdir_rec n' p false exist_ok) w
           end
  | inl e =>
      if negb exist_ok || negb (Path_is_dir (w_fs w) p) then (inl (OSError e), w)
      else (inr tt, w)
  end.

Definition Path_mkdir (p : path) (parents exist_ok : bool) : M unit :=
  Path_mkdir_rec (length p) p parents exist_ok.

(** [with open(p, "w") as f: f.write(content)]. *)
Definition write_file (p : path) (content : string) : M unit :=
  λ w, lift_os (os_write (w_fs w) p content) w.

(** The status the process ends with: 0 after a normal return, the code of
    [sys.exit], 1 after an uncaught exception. *)
Definition exit_status {A} (r : exn + A) : Z :=
  match r with
  | inr _ => 0
  | inl (SystemExit c) => c
  | inl _ => 1
  end.

(* ===================================================================== *)
(** * [json.dump(obj, f, indent=2)] *)

(** The Python objects [json] serialises.  A number is kept as its
    literal. *)
Inductive json :=
  | JNull
  | JBool (b : bool)
  | JNum (lit : string)
  | JStr (s : string)
  | JList (items : list json)
  | JDict (items : list (string * json)).

Definition hex_digit (n : N) : ascii :=
  match n with
  | 0 => "0" | 1 => "1" | 2 => "2" | 3 => "3" | 4 => "4" | 5 => "5"
  | 6 => "6" | 7 => "7" | 8 => "8" | 9 => "9" | 10 => "a" | 11 => "b"
  | 12 => "c" | 13 => "d" | 14 => "e" | _ => "f"
  end%N%char.

(** [encode_basestring_ascii]: the backslash, the double quote and every
    character outside [' '..'~'] are escaped; the short escapes first,
    [\uXXXX] with four lower-case hexadecimal digits otherwise. *)
Definition escape_char (c : ascii) : string :=
  let n := N_of_ascii c in
  if decide (c = dquote) then String "\" (String dquote "")
  else if decide (c = "\"%char) then "\\"
  else if decide (n = 8%N) then "\b"
  else if decide (n = 12%N) then "\f"
  else if decide (n = 10%N) then "\n"
  else if decide (n = 13%N) then "\r"
  else if decide (n = 9%N) then "\t"
  else if (n <? 32)%N || (126 <? n)%N then
    "\u00" +:+ String (hex_digit (n / 16)) (String (hex_digit (n mod 16)) "")
  else String c "".

Fixpoint escape (s : string) : string :=
  match s with
  | "" => ""
  | String c r => escape_char c +:+ escape r
  end.

Definition encode_str (s : string) : string :=
  String dquote (escape s +:+ String dquote "").

(** A line feed and [level] times the two-space indent. *)
Fixpoint indent (level : nat) : string :=
  match level with
  | O => ""
  | S l => "  " +:+ indent l
  end.
Definition newline_indent (level : nat) : string := String LF (indent level).

Fixpoint json_encode (level : nat) (v : json) : string :=
  match v with
  | JNull => "null"
  | JBool true => "true"
  | JBool false => "false"
  | JNum lit => lit
  | JStr s => encode_str s
  | JList [] => "[]"
  | JList items =>
      "[" +:+ newline_indent (S level)
      +:+ str_join ("," +:+ newline_indent (S level))
            (map (json_encode (S level)) items)
      +:+ newline_indent level +:+ "]"
  | JDict [] => "{}"
  | JDict items =>
      "{" +:+ newline_indent (S level)
      +:+ str_join ("," +:+ newline_indent (S level))
            (map (λ kv, match kv with
                        | (k, x) => encode_str k +:+ ": " +:+ json_encode (S level) x
                        end) items)
      +:+ newline_indent level +:+ "}"
  end.

Definition json_dumps (v : json) : string := json_encode 0 v.

(* ===================================================================== *)
(** * Reading JSON text (RFC 8259)

    The reader that says what valid JSON is: [json_loads s] is the value
    the text [s] denotes, [None] when [s] is not JSON.  A [\uXXXX] escape
    above U+00FF has no character in this model and is refused. *)

Definition is_json_ws (c : ascii) : bool :=
  let n := N_of_ascii c in
  (n =? 32)%N || (n =? 9)%N || (n =? 10)%N || (n =? 13)%N.

Fixpoint skip_ws (s : string) : string :=
  match s with
  | String c r => if is_json_ws c then skip_ws r else s
  | "" => ""
  end.

Definition hex_val (c : ascii) : option N :=
  let n := N_of_ascii c in
  if (48 <=? n)%N && (n <=? 57)%N then Some (n - 48)%N
  else if (97 <=? n)%N && (n <=? 102)%N then Some (n - 87)%N
  else if (65 <=? n)%N && (n <=? 70)%N then Some (n - 55)%N
  else None.

Definition hex4 (a b c d : ascii) : option N :=
  x ← hex_val a; y ← hex_val b; z ← hex_val c; w ← hex_val d;
  Some (((x * 16 + y) * 16 + z) * 16 + w)%N.

Definition push (c : ascii) (o : option (string * string)) : option (string * string) :=
  match o with
  | Some (x, rest) => Some (String c x, rest)
  | None => None
  end.

(** The characters of a string after its opening quote, up to the closing
    one: the decoded string and the text left. *)
Fixpoint read_chars (s : string) : option (string * string) :=
  match s with
  | "" => None
  | String c r =>
      if decide (c = dquote) then Some ("", r)
      else if decide (c = "\"%char) then
        match r with
        | "" => None
        | String e r1 =>
            if decide (e = dquote) then push dquote (read_chars r1)
            else if decide (e = "\"%char) then push "\"%char (read_chars r1)
            else if decide (e = "/"%char) then push "/"%char (read_chars r1)
            else if decide (e = "b"%char) then push "008"%char (read_chars r1)
            else if decide (e = "f"%char) then push "012"%char (read_chars r1)
            else if decide (e = "n"%char) then push "010"%char (read_chars r1)
            else if decide (e = "r"%char) then push "013"%char (read_chars r1)
            else if decide (e = "t"%char) then push "009"%char (read_chars r1)
            else if decide (e = "u"%char) then
              match r1 with
              | String h1 (String h2 (String h3 (String h4 r2))) =>
                  match hex4 h1 h2 h3 h4 with
                  | Some n =>
                      if (n <? 256)%N then push (ascii_of_N n) (read_chars r2)
                      else None
                  | None => None
                  end
              | _ => None
              end
            else None
        end
      else if (N_of_ascii c <? 32)%N then None
      else push c (read_chars r)
  end.

Definition is_digit (c : ascii) : bool :=
  let n := N_of_ascii c in (48 <=? n)%N && (n <=? 57)%N.

Fixpoint span_digits (s : string) : string * string :=
  match s with
  | String c r =>
      if is_digit c then
        match span_digits r with (d, r') => (String c d, r') end
      else ("", s)
  | "" => ("", "")
  end.

Definition some_digits (s : string) : option (string * string) :=
  match span_digits s with
  | ("", _) => None
  | (d, r) => Some (d, r)
  end.

(** [number = [ minus ] int [ frac ] [ exp ]]. *)
Definition read_int_part (s : string) : option (string * string) :=
  match s with
  | String c r =>
      if decide (c = "0"%char) then Some ("0", r)
      else if is_digit c then
        match span_digits r with (d, r') => Some (String c d, r') end
      else None
  | "" => None
  end.

Definition read_frac (s : string) : option (string * string) :=
  match s with
  | String c r =>
      if decide (c = "."%char) then
        '(d, r') ← some_digits r; Some (String c d, r')
      else Some ("", s)
  | "" => Some ("", s)
  end.

Definition read_exp (s : string) : option (string * string) :=
  match s with
  | String c r =>
      if bool_decide (c = "e"%char) || bool_decide (c = "E"%char) then
        match r with
        | String sg r1 =>
            if bool_decide (sg = "+"%char) || bool_decide (sg = "-"%char) then
              '(d, r') ← some_digits r1; Some (String c (String sg d), r')
            else '(d, r') ← some_digits r; Some (String c d, r')
        | "" => None
        end
      else Some ("", s)
  | "" => Some ("", s)
  end.

Definition read_number (s : string) : option (string * string) :=
  let '(sign, s1) :=
    match s with
    | String c r => if decide (c = "-"%char) then ("-", r) else ("", s)
    | "" => ("", s)
    end in
  '(i, s2) ← read_int_part s1;
  '(f, s3) ← read_frac s2;
  '(e, s4) ← read_exp s3;
  Some (sign +:+ i +:+ f +:+ e, s4).

(** [read_literal lit s]: [s] without the prefix [lit]. *)
Fixpoint read_literal (lit s : string) : option string :=
  match lit, s with
  | "", _ => Some s
  | String a lit', String b s' => if decide (a = b) then read_literal lit' s' else None
  | String _ _, "" => None
  end.

(** One step of the reader for a value, for the members of an object up
    to its closing brace and for the elements of an array up to its closing
    bracket, over the readers of the parts. *)
Definition value_step
    (members : string → option (list (string * json) * string))
    (elements : string → option (list json * string))
    (s : string) : option (json * string) :=
  match skip_ws s with
  | "" => None
  | String c r =>
      if decide (c = dquote) then
        '(x, r') ← read_chars r; Some (JStr x, r')
      else if decide (c = "{"%char) then
        match skip_ws r with
        | String "}" r' => Some (JDict [], r')
        | _ => '(ms, r') ← members r; Some (JDict ms, r')
        end
      else if decide (c = "["%char) then
        match skip_ws r with
        | String "]" r' => Some (JList [], r')
        | _ => '(xs, r') ← elements r; Some (JList xs, r')
        end
      else if decide (c = "t"%char) then
        r' ← read_literal "rue" r; Some (JBool true, r')
      else if decide (c = "f"%char) then
        r' ← read_literal "alse" r; Some (JBool false, r')
      else if decide (c = "n"%char) then
        r' ← read_literal "ull" r; Some (JNull, r')
      else
        '(lit, r') ← read_number (String c r); Some (JNum lit, r')
  end.

Definition members_step
    (value : string → option (json * string))
    (members : string → option (list (string * json) * string))
    (s : string) : option (list (string * json) * string) :=
  match skip_ws s with
  | String c r =>
      if decide (c = dquote) then
        '(k, r1) ← read_chars r;
        match skip_ws r1 with
        | String ":" r2 =>
            '(v, r3) ← value r2;
            match skip_ws r3 with
            | String "," r4 => '(ms, r5) ← members r4; Some ((k, v) :: ms, r5)
            | String "}" r4 => Some ([(k, v)], r4)
            | _ => None
            end
        | _ => None
        end
      else None
  | "" => None
  end.

Definition elements_step
    (value : string → option (json * string))
    (elements : string → option (list json * string))
    (s : string) : option (list json * string) :=
  '(v, r1) ← value s;
  match skip_ws r1 with
  | String "," r2 => '(xs, r3) ← elements r2; Some (v :: xs, r3)
  | String "]" r2 => Some ([v], r2)
  | _ => None
  end.

(** The readers; the fuel bounds the number of values, members and
    elements opened one inside the other. *)
Fixpoint read_value (fuel : nat) (s : string) : option (json * string) :=
  match fuel with
  | O => None
  | S n => value_step (read_members n) (read_elements n) s
  end
with read_members (fuel : nat) (s : string) : option (list (string * json) * string) :=
  match fuel with
  | O => None
  | S n => members_step (read_value n) (read_members n) s
  end
with read_elements (fuel : nat) (s : string) : option (list json * string) :=
  match fuel with
  | O => None
  | S n => elements_step (read_value n) (read_elements n) s
  end.

(** [json.loads]: one value, white space around it, nothing else. *)
Definition json_loads (s : string) : option json :=
  match read_value (String.length s) s with
  | Some (v, r) => if decide (skip_ws r = "") then Some v else None
  | None => None
  end.

(** [obj[key]] for a JSON object. *)
Fixpoint assoc (key : string) (ms : list (string * json)) : option json :=
  match ms with
  | [] => None
  | (k, v) :: ms => if decide (k = key) then Some v else assoc key ms
  end.
Definition json_get (key : string) (v : json) : option json :=
  match v with
  | JDict ms => assoc key ms
  | _ => None
  end.

(* ===================================================================== *)
(** * The script *)

Section Script.

(** [Path(__file__).parent.parent], the workspace root: the components
    of a path below the root [/]. *)
Variable root : path.

(** The built-ins the script calls whose result depends on the Unicode
    tables: [int(s)] ([None] for [ValueError]), [s.upper()] and
    [s.title()]. *)
Variable int_of_str : string → option Z.
Variable str_upper : string → string.
Variable str_title : string → string.

Definition service_dir (service_name : string) : path :=
  root /: "services" /: service_name.

(** The root of [service_dir], and of the paths made from it with [/]:
    the one of the service name where the name is absolute, the one of
    the workspace where it is not. *)
Definition service_root (service_name : string) : string :=
  root_div (root_div "/" "services") service_name.

Definition package_json (service_name : string) : json :=
  JDict
    [ ("name", JStr (service_name +:+ "-service"));
      ("version", JStr "1.0.0");
      ("description", JStr "");
      ("main", JStr "index.js");
      ("scripts", JDict
         [ ("start", JStr "node index.js");
           ("dev", JStr "nodemon index.js") ]);
      ("keywords", JList []);
      ("author", JStr "");
      ("license", JStr "ISC");
      ("type", JStr "module");
      ("dependencies", JDict
         [ ("@shared/config", JStr "workspace:*");
           ("@shared/utils", JStr "workspace:*");
           ("@shared/providers", JStr "workspace:*");
           ("@shared/middlewares", JStr "workspace:*");
           ("@shared/cloudinary", JStr "workspace:*");
           ("@shared/env-loader", JStr "workspace:*") ]);
      ("devDependencies", JDict
         [ ("nodemon", JStr "^3.1.11") ]) ].

Definition env_content (service_name : string) (port : Z) : string :=
  unlines
    [ "# ";
      "# " +:+ str_upper service_name +:+ " SERVICE - Specific Configuration";
      "# Loaded after root .env (can override common variables if needed)";
      "# ";
      "";
      "# Server Port (" +:+ str_title service_name +:+ " Service)";
      "PORT=" +:+ str_of_int port ].

Definition index_js (port : Z) : string :=
  unlines
    [ "import " +:+ q "@shared/env-loader" +:+ ";";
      "import { database as connectDB } from " +:+ q "@shared/config" +:+ ";";
      "import createApp from " +:+ q "./config/express.config.js" +:+ ";";
      "";
      "const PORT = process.env.PORT || " +:+ str_of_int port +:+ ";";
      "";
      "async function startServer() {";
      "  console.log(" +:+ q "> Starting server..." +:+ ");";
      "";
      "  await connectDB();";
      "";
      "  const app = createApp();";
      "";
      "  app.listen(PORT, () => {";
      "    console.log(`> Server running on port ${PORT}`);";
      "  });";
      "}";
      "";
      "startServer().catch((error) => {";
      "  console.error(" +:+ q "> Failed to start server:" +:+ ", error);";
      "  process.exit(1);";
      "});" ].

Definition express_config : string :=
  unlines
    [ "import express from " +:+ q "express" +:+ ";";
      "import cors from " +:+ q "cors" +:+ ";";
      "import routes from " +:+ q "../index.route.js" +:+ ";";
      "";
      "export default function createApp() {";
      "  const app = express();";
      "";
      "  console.log(" +:+ q "> Middleware configured" +:+ ");";
      "";
      "  app.use(cors());";
      "  app.use(express.json());";
      "  app.use(express.urlencoded({ extended: true }));";
      "";
      "  console.log(" +:+ q "> Routes initialized" +:+ ");";
      "  app.use(" +:+ q "/api" +:+ ", routes);";
      "";
      "  return app;";
      "}" ].

Definition index_route : string :=
  unlines
    [ "import { Router } from " +:+ q "express" +:+ ";";
      "import { sendResponse } from " +:+ q "@shared/utils" +:+ ";";
      "";
      "const router = Router();";
      "";
      "/**";
      " * @route GET /api/health";
      " * @description Health check endpoint";
      " */";
      "router.get(" +:+ q "/health" +:+ ", (req, res) => {";
      "  sendResponse(res, 200, " +:+ q "Server is running" +:+ ", { status: "
        +:+ q "ok" +:+ " }, null);";
      "});";
      "";
      "// TODO: Add your routes here";
      "// Example:";
      "// import exampleRoutes from " +:+ q "./src/example/example.route.js" +:+ ";";
      "// router.use(" +:+ q "/examples" +:+ ", exampleRoutes);";
      "";
      "export default router;" ].

Definition readme (service_name : string) (port : Z) : string :=
  unlines
    [ "# " +:+ str_title service_name +:+ " Service";
      "";
      "Port: " +:+ str_of_int port;
      "";
      "## Running";
      "";
      "```bash";
      "pnpm --filter " +:+ service_name +:+ "-service start";
      "pnpm --filter " +:+ service_name +:+ "-service dev";
      "```";
      "";
      "## Health Check";
      "";
      "```bash";
      "curl http://localhost:" +:+ str_of_int port +:+ "/api/health";
      "```" ].

(** The directories of the skeleton, in the order the loop makes them. *)
Definition dirs (service_name : string) : list path :=
  let service_dir := service_dir service_name in
  [ service_dir;
    service_dir /: "src";
    service_dir /: "config";
    service_dir /: "models";
    service_dir /: "scripts" ].

Definition create_service (service_name : string) (port : Z) : M unit :=
  let service_dir := service_dir service_name in
  λ w,
  if Path_exists (w_fs w) service_dir then
    (print ("Error: Service '" +:+ service_name +:+ "' already exists");;
     sys_exit 1) w
  else
    (print ("Creating service: " +:+ service_name +:+ " on port " +:+ str_of_int port);;
     for_each (dirs service_name) (λ d,
       Path_mkdir d true true;;
       print ("Created: " +:+ path_str (service_root service_name) d));;
     write_file (service_dir /: "package.json") (json_dumps (package_json service_name));;
     print "Created: package.json";;
     write_file (service_dir /: ".env") (env_content service_name port);;
     print "Created: .env";;
     write_file (service_dir /: "index.js") (index_js port);;
     print "Created: index.js";;
     write_file (service_dir /: "config" /: "express.config.js") express_config;;
     print "Created: config/express.config.js";;
     write_file (service_dir /: "index.route.js") index_route;;
     print "Created: index.route.js";;
     write_file (service_dir /: "README.md") (readme service_name port);;
     print "Created: README.md";;
     print (String LF "Service '" +:+ service_name +:+ "' created successfully!");;
     print (String LF "Next steps:");;
     print "1. cd 'e:/AIB/Cleanse Ayurveda/microservices'";;
     print "2. pnpm install";;
     print ("3. pnpm --filter " +:+ service_name +:+ "-service dev")) w.

(** The [__main__] block, over [sys.argv]; [scaffold] is the routine the
    last line calls. *)
Definition main_with (scaffold : string → Z → M unit) (argv : list string) : M unit :=
  match argv with
  | [_; service_name; port_arg] =>
      match int_of_str port_arg with
      | None => print "Error: Port must be a number";; sys_exit 1
      | Some port => scaffold service_name port
      end
  | _ =>
      print "Usage: python scripts/create-service.py <service-name> <port>";;
      print "Example: python scripts/create-service.py order 3003";;
      sys_exit 1
  end.

Definition main (argv : list string) : M unit := main_with create_service argv.

(** One run of the script: the exit status, the file system and the
    output it leaves. *)
Definition run (argv : list string) (fs : filesystem) : Z * filesystem * list string :=
  match main argv (World fs []) with
  | (r, w) => (exit_status r, w_fs w, w_out w)
  end.

End Script.

(* ===================================================================== *)
(** * The built-ins on text of code points below 256 *)

(** [str.upper] and [str.title] on ASCII text; other characters are
    left as they are. *)
Definition is_lower (c : ascii) : bool :=
  let n := N_of_ascii c in (97 <=? n)%N && (n <=? 122)%N.
Definition is_upper (c : ascii) : bool :=
  let n := N_of_ascii c in (65 <=? n)%N && (n <=? 90)%N.
Definition to_upper (c : ascii) : ascii :=
  if is_lower c then ascii_of_N (N_of_ascii c - 32) else c.
Definition to_lower (c : ascii) : ascii :=
  if is_upper c then ascii_of_N (N_of_ascii c + 32) else c.

Fixpoint upper_ascii (s : string) : string :=
  match s with
  | "" => ""
  | String c r => String (to_upper c) (upper_ascii r)
  end.

(** [title]: a letter after a character that is no letter is upper-cased,
    every other letter lower-cased. *)
Fixpoint title_go (previous_is_cased : bool) (s : string) : string :=
  match s with
  | "" => ""
  | String c r =>
      if is_lower c || is_upper c then
        String (if previous_is_cased then to_lower c else to_upper c) (title_go true r)
      else String c (title_go false r)
  end.
Definition title_ascii (s : string) : string := title_go false s.

(** [int(s)]: white space around, an optional sign, decimal digits with
    single underscores between them.  The white space [int] strips is
    tab to carriage return, the space, U+0085 and U+00A0.  The limit
    recent versions put on the number of digits is left out. *)
Definition is_space (c : ascii) : bool :=
  let n := N_of_ascii c in
  ((9 <=? n)%N && (n <=? 13)%N) || (n =? 32)%N || (n =? 133)%N || (n =? 160)%N.

Fixpoint lstrip (s : string) : string :=
  match s with
  | String c r => if is_space c then lstrip r else s
  | "" => ""
  end.
Definition strip (s : string) : string :=
  String.rev (lstrip (String.rev (lstrip s))).

Definition digit_val (c : ascii) : option Z :=
  let n := N_of_ascii c in
  if (48 <=? n)%N && (n <=? 57)%N then Some (Z.of_N n - 48) else None.

(** The digits after the first one; [after_digit] tells whether an
    underscore may come next. *)
Fixpoint int_digits (acc : Z) (after_digit : bool) (s : string) : option Z :=
  match s with
  | "" => if after_digit then Some acc else None
  | String c r =>
      match digit_val c with
      | Some d => int_digits (10 * acc + d) true r
      | None =>
          if decide (c = "_"%char) then
            if after_digit then int_digits acc false r else None
          else None
      end
  end.

Definition int_unsigned (s : string) : option Z :=
  match s with
  | String c r =>
      match digit_val c with
      | Some d => int_digits d true r
      | None => None
      end
  | "" => None
  end.

Definition int_latin1 (s : string) : option Z :=
  match strip s with
  | String "-" r => Z.opp <$> int_unsigned r
  | String "+" r => int_unsigned r
  | t => int_unsigned t
  end.

(* ===================================================================== *)
(** * Vocabulary of the statements *)

(** The location a path resolves to when every step succeeds: [..] goes
    up, any other component goes down. *)
Fixpoint norm (cur : path) (p : path) : path :=
  match p with
  | [] => cur
  | c :: rest => if decide (c = "..") then norm (parent cur) rest else norm (cur ++ [c]) rest
  end.

(** The location the last component of [p] is looked up at. *)
Definition key_of (p : path) : path :=
  match split_last p with
  | None => []
  | Some (d, l) => if decide (l = "..") then parent (norm [] d) else norm [] d ++ [l]
  end.

(** A well-formed file system: every entry lies in a directory. *)
Definition wf_fs (fs : filesystem) : Prop :=
  map_Forall (λ k _, k ≠ [] ∧ (parent k = [] ∨ fs !! parent k = Some Dir)) fs.

Global Instance wf_fs_dec fs : Decision (wf_fs fs).
Proof. unfold wf_fs. apply _. Defined.

(** A path without [..]. *)
Definition plain (p : path) : Prop := Forall (λ c, c ≠ "..") p.

Global Instance plain_dec p : Decision (plain p).
Proof. unfold plain. apply _. Defined.

(** A string that is one path component: not empty, not [.] or [..], no
    [/] in it. *)
Definition is_component (s : string) : Prop :=
  s ≠ "" ∧ s ≠ "." ∧ s ≠ ".." ∧ has_char "/" s = false.

Global Instance is_component_dec s : Decision (is_component s).
Proof. unfold is_component. apply _. Defined.

(** [ancestors cur p]: the directories on the way from [cur] down to
    [cur ++ p], the last one included, outermost first. *)
Fixpoint ancestors (cur : path) (p : path) : list path :=
  match p with
  | [] => []
  | c :: rest => (cur ++ [c]) :: ancestors (cur ++ [c]) rest
  end.

Definition is_file (o : option node) : bool :=
  match o with
  | Some (File _) => true
  | _ => false
  end.

(** No regular file at [p] or on the way to it. *)
Definition no_file_above (fs : filesystem) (p : path) : Prop :=
  Forall (λ k, is_file (fs !! k) = false) (ancestors [] p).

Global Instance no_file_above_dec fs p : Decision (no_file_above fs p).
Proof. unfold no_file_above. apply _. Defined.

(** The limits of Linux on what a system call takes: a component of at
    most [NAME_MAX] bytes, and a path of at most [PATH_MAX] bytes with
    the byte that ends it. *)
Definition NAME_MAX : nat := 255.
Definition PATH_MAX : nat := 4096.

(** The bytes of a [str] in a file name, in UTF-8: one for a code point
    below 128, two for the others below 256. *)
Fixpoint fs_bytes (s : string) : nat :=
  match s with
  | "" => 0
  | String c r => (if (N_of_ascii c <? 128)%N then 1 else 2) + fs_bytes r
  end.

(** [fits p]: the path [p] and every path above it are within the
    limits, with the longer root [//] counted. *)
Definition fits (p : path) : Prop :=
  Forall (λ c, (fs_bytes c ≤ NAME_MAX)%nat) p ∧
  (fs_bytes (path_str "//" p) < PATH_MAX)%nat.

Global Instance fits_dec p : Decision (fits p).
Proof. unfold fits. apply _. Defined.

(** Directories stay directories. *)
Definition dirs_kept (fs fs' : filesystem) : Prop :=
  ∀ k, fs !! k = Some Dir → fs' !! k = Some Dir.

(** [add_entries fs es]: the entries [es] put into [fs], one after the
    other. *)
Definition add_entries (fs : filesystem) (es : list (path * node)) : filesystem :=
  foldl (λ m e, <[e.1 := e.2]> m) fs es.

(** The directories [mkdir(parents=True)] leaves on the way to [p]. *)
Definition dir_entries (p : path) : list (path * node) :=
  (λ k, (k, Dir)) <$> ancestors [] p.

(** The regular files of [fs'] that [fs] does not have with the same
    content. *)
Definition written_files (fs fs' : filesystem) : list path :=
  filter (λ k, is_file (fs' !! k) = true ∧ fs !! k ≠ fs' !! k)
         (map_to_list fs').*1.

(** [has_line l s]: [l] is one of the lines of [s]. *)
Definition has_line (l s : string) : Prop := l ∈ lines s.

(** One reader gives every result another one gives. *)
Definition le_read {A} (f g : string → option A) : Prop :=
  ∀ s r, f s = Some r → g s = Some r.

(** The text of [package.json] before and after the value of [name]. *)
Definition members_text (level : nat) (items : list (string * json)) : string :=
  str_join ("," +:+ newline_indent level)
    (map (λ kv, match kv with
                | (k, x) => encode_str k +:+ ": " +:+ json_encode level x
                end) items).

Definition package_head : string :=
  "{" +:+ newline_indent 1 +:+ encode_str "name" +:+ ": ".

Definition package_rest : list (string * json) :=
  match package_json "" with
  | JDict (_ :: ms) => ms
  | _ => []
  end.

Definition package_tail : string :=
  "," +:+ newline_indent 1 +:+ members_text 1 package_rest
  +:+ newline_indent 0 +:+ "}".

(** The output of the usage branch and of the two error branches. *)
Definition usage_text : list string :=
  [ line "Usage: python scripts/create-service.py <service-name> <port>";
    line "Example: python scripts/create-service.py order 3003" ].
Definition port_error_text : list string :=
  [ line "Error: Port must be a number" ].
Definition exists_error_text (service_name : string) : list string :=
  [ line ("Error: Service '" +:+ service_name +:+ "' already exists") ].

(** The entries of the skeleton below the service directory. *)
Definition below_service_dir : list path :=
  [ ["src"]; ["config"]; ["models"]; ["scripts"];
    ["package.json"]; [".env"]; ["index.js"];
    ["config"; "express.config.js"]; ["index.route.js"]; ["README.md"] ].

Section Skeleton.

Context (root : path) (str_upper str_title : string → string).

Local Abbreviation service_dir := (service_dir root).

(** What a run that succeeds leaves: the directories, the files, and the
    lines it prints. *)
Definition scaffold_dirs (service_name : string) : list (path * node) :=
  let service_dir := service_dir service_name in
  dir_entries service_dir ++
  [ (service_dir /: "src", Dir);
    (service_dir /: "config", Dir);
    (service_dir /: "models", Dir);
    (service_dir /: "scripts", Dir) ].

Definition scaffold_files (service_name : string) (port : Z) : list (path * node) :=
  let service_dir := service_dir service_name in
  [ (service_dir /: "package.json", File (json_dumps (package_json service_name)));
    (service_dir /: ".env", File (env_content str_upper str_title service_name port));
    (service_dir /: "index.js", File (index_js port));
    (service_dir /: "config" /: "express.config.js", File express_config);
    (service_dir /: "index.route.js", File index_route);
    (service_dir /: "README.md", File (readme str_title service_name port)) ].

Definition skeleton (service_name : string) (port : Z) : list (path * node) :=
  scaffold_dirs service_name ++ scaffold_files service_name port.

(** The paths a run hands to the operating system are within its limits:
    the components of the service directory are, and so is the longest
    path of the skeleton, the one of [config/express.config.js]. *)
Definition paths_fit (service_name : string) : Prop :=
  fits (service_dir service_name /: "config" /: "express.config.js").

Global Instance paths_fit_dec service_name : Decision (paths_fit service_name).
Proof. unfold paths_fit. apply _. Defined.

Definition success_output (service_name : string) (port : Z) : list string :=
  [ line ("Creating service: " +:+ service_name +:+ " on port " +:+ str_of_int port) ]
  ++ ((λ d, line ("Created: " +:+ path_str (service_root service_name) d))
        <$> dirs root service_name)
  ++ [ line "Created: package.json";
       line "Created: .env";
       line "Created: index.js";
       line "Created: config/express.config.js";
       line "Created: index.route.js";
       line "Created: README.md";
       line (String LF "Service '" +:+ service_name +:+ "' created successfully!");
       line (String LF "Next steps:");
       line "1. cd 'e:/AIB/Cleanse Ayurveda/microservices'";
       line "2. pnpm install";
       line ("3. pnpm --filter " +:+ service_name +:+ "-service dev") ].

End Skeleton.

(** A workspace to run the script in: the script in [/repo/scripts], an
    empty [/repo/services]. *)
Definition repo : path := ["repo"].
Definition fs_repo : filesystem :=
  {[ ["repo"] := Dir;
     ["repo"; "scripts"] := Dir;
     ["repo"; "scripts"; "create-service.py"] := File "#!/usr/bin/env python3";
     ["repo"; "services"] := Dir ]}.
Definition argv_order : list string := ["scripts/create-service.py"; "order"; "3003"].

(** The same workspace with a regular file in the place of the service
    directory. *)
Definition fs_order_file : filesystem :=
  <[ ["repo"; "services"; "order"] := File "notes" ]> fs_repo.

(** The same workspace with the service directory there already. *)
Definition fs_order_dir : filesystem :=
  <[ ["repo"; "services"; "order"] := Dir ]> fs_repo.

(** The workspace with a regular file named [services], and the
    workspace before any service was made, without [services]. *)
Definition fs_services_file : filesystem :=
  <[ ["repo"; "services"] := File "notes" ]> fs_repo.
Definition fs_no_services : filesystem :=
  delete ["repo"; "services"] fs_repo.

(** The script run in that workspace, with the built-ins for text of code
    points below 256. *)
Definition run_repo (argv : list string) (fs : filesystem) : Z * filesystem * list string :=
  run repo int_latin1 upper_ascii title_ascii argv fs.

(** ** What a run keeps, prints and leaves *)

(** Two nodes of the same kind: two directories, or two regular files. *)
Definition same_kind (n n' : node) : bool :=
  match n, n' with
  | Dir, Dir | File _, File _ => true
  | _, _ => false
  end.

(** Every entry of [fs] is in [fs'], a directory as a directory and a
    regular file as a regular file. *)
Definition kinds_kept (fs fs' : filesystem) : Prop :=
  ∀ k n, fs !! k = Some n → ∃ n', fs' !! k = Some n' ∧ same_kind n n' = true.

(** Well-formedness, once there, stays. *)
Definition wf_kept (fs fs' : filesystem) : Prop := wf_fs fs → wf_fs fs'.

(** [keeps R m]: the file systems before and after the computation [m]
    are related by [R], whether [m] returns or raises. *)
Definition keeps {A : Type} (R : relation filesystem) (m : M A) : Prop :=
  ∀ w, R (w_fs w) (w_fs (m w).2).

(** [prints m ls]: the computation [m] prints the lines [ls] when it
    returns, and the first of them when it raises. *)
Definition prints {A : Type} (m : M A) (ls : list string) : Prop :=
  ∀ w, ∃ ls',
    w_out (m w).2 = w_out w ++ ls' ∧
    match (m w).1 with
    | inr _ => ls' = ls
    | inl _ => ls' `prefix_of` ls
    end.

Section SkeletonAt.

Context (str_upper str_title : string → string).

(** The skeleton with the service directory at the location [t]. *)
Definition skeleton_at (t : path) (service_name : string) (port : Z)
  : list (path * node) :=
  [ (t, Dir);
    (t ++ ["src"], Dir);
    (t ++ ["config"], Dir);
    (t ++ ["models"], Dir);
    (t ++ ["scripts"], Dir);
    (t ++ ["package.json"], File (json_dumps (package_json service_name)));
    (t ++ [".env"], File (env_content str_upper str_title service_name port));
    (t ++ ["index.js"], File (index_js port));
    (t ++ ["config"; "express.config.js"], File express_config);
    (t ++ ["index.route.js"], File index_route);
    (t ++ ["README.md"], File (readme str_title service_name port)) ].

End SkeletonAt.

(** ** The text of the files *)

(** [all_chars P s]: every character of [s] passes the test [P]. *)
Fixpoint all_chars (P : ascii → bool) (s : string) : bool :=
  match s with
  | "" => true
  | String c r => P c && all_chars P r
  end.

(** The printable characters of ASCII, the space to the tilde. *)
Definition is_printable (c : ascii) : bool :=
  let n := N_of_ascii c in (32 <=? n)%N && (n <=? 126)%N.

(** The lines of a [.env] file that are settings: not empty and no
    comment. *)
Definition settings (env : string) : list string :=
  filter (λ l, l ≠ "" ∧ is_prefix "#" l = false) (lines env).

(** Objects without numbers: strings, [None], booleans, and the lists and
    dictionaries of such. *)
Fixpoint no_numbers (v : json) : bool :=
  match v with
  | JNum _ => false
  | JList items => forallb no_numbers items
  | JDict items => forallb (λ kv, match kv with (_, x) => no_numbers x end) items
  | _ => true
  end.

(** The number of values, elements and members of an object: the fuel
    that reads it. *)
Fixpoint weight (v : json) : nat :=
  match v with
  | JList items => S (list_sum (map (λ x, S (weight x)) items))
  | JDict items =>
      S (list_sum (map (λ kv, match kv with (_, x) => S (weight x) end) items))
  | _ => 1
  end.

(** The text of the elements of a list at one level of indentation. *)
Definition elements_text (level : nat) (items : list json) : string :=
  str_join ("," +:+ newline_indent level) (map (json_encode level) items).

(** An object without numbers reads back from its text, whatever
    follows it. *)
Definition reads_back (v : json) : Prop :=
  no_numbers v = true →
  ∀ n level rest, (weight v ≤ n)%nat →
    read_value n (json_encode level v +:+ rest) = Some (v, rest).

(** The text of an object has at least as many characters as the object
    has values. *)
Definition short_weight (v : json) : Prop :=
  ∀ level, no_numbers v = true → (weight v ≤ String.length (json_encode level v))%nat.

(** ** More runs in the workspace *)

(** A service name that points out of [services], and an absolute
    one. *)
Definition argv_tools : list string := ["scripts/create-service.py"; "../tools"; "3003"].
Definition argv_absolute : list string := ["scripts/create-service.py"; "/srv/order"; "3003"].

(** A service name that begins with two slashes, and one that lies below
    another name. *)
Definition argv_two_slashes : list string :=
  ["scripts/create-service.py"; "//repo/dbl"; "3003"].
Definition argv_order_sub : list string :=
  ["scripts/create-service.py"; "order/sub"; "3003"].

(** The empty service name. *)
Definition argv_empty : list string := ["scripts/create-service.py"; ""; "3003"].

(* ===================================================================== *)
(** * Strings *)

Section Strings.

Implicit Types (a b c s t l : string).

Lemma str_app_cons x a b : String x a +:+ b = String x (a +:+ b).
Proof. reflexivity. Qed.

Lemma str_app_assoc a b c : (a +:+ b) +:+ c = a +:+ (b +:+ c).
Proof. induction a as [|x a IH]; [done|]. rewrite !str_app_cons. by rewrite IH. Qed.

Lemma str_length_app a b :
  String.length (a +:+ b) = (String.length a + String.length b)%nat.
Proof. induction a as [|x a IH]; [done|]. rewrite str_app_cons. simpl. by rewrite IH. Qed.

Lemma has_char_app x a b : has_char x (a +:+ b) = has_char x a || has_char x b.
Proof.
  induction a as [|y a IH]; [done|]. rewrite str_app_cons. simpl.
  by rewrite IH, orb_assoc.
Qed.

(** A text whose first line is [l]. *)
Lemma lines_cons l rest :
  has_char LF l = false → lines (l +:+ String LF rest) = l :: lines rest.
Proof.
  induction l as [|x l IH]; intros H; [done|].
  simpl in H. apply orb_false_iff in H as [C H]. apply bool_decide_eq_false in C.
  rewrite str_app_cons. simpl. rewrite decide_False by done. by rewrite IH.
Qed.

(** The lines after a line feed are lines of the whole text. *)
Lemma lines_app a rest :
  ∃ h pre, lines (a +:+ String LF rest) = h :: pre ++ lines rest.
Proof.
  induction a as [|x a (h & pre & IH)].
  - by exists "", [].
  - rewrite str_app_cons. simpl. case_decide.
    + exists "", (h :: pre). by rewrite IH.
    + rewrite IH. by exists (String x h), pre.
Qed.

Lemma has_line_unlines l ls :
  l ∈ ls → has_char LF l = false → has_line l (unlines ls).
Proof.
  unfold has_line.
  intros In H. induction ls as [|x ls IH]; [by apply elem_of_nil in In|].
  simpl. apply elem_of_cons in In as [<-|In].
  - rewrite lines_cons by done. left.
  - destruct (lines_app x (unlines ls)) as (h & pre & ->).
    right. apply elem_of_app. right. by apply IH.
Qed.

Lemma uint_no_LF d : has_char LF (NilEmpty.string_of_uint d) = false.
Proof. induction d; simpl; done. Qed.

Lemma str_of_int_no_LF n : has_char LF (str_of_int n) = false.
Proof.
  unfold str_of_int, NilZero.string_of_int, NilZero.string_of_uint.
  destruct (Z.to_int n) as [d|d]; destruct d; simpl; try done; apply uint_no_LF.
Qed.

(** [str_of_int n] is the decimal numeral of [n]: it reads back as [n]. *)
Lemma str_of_int_read n :
  Z.of_int <$> NilZero.int_of_string (str_of_int n) = Some n.
Proof.
  unfold str_of_int. rewrite NilZero.isi.
  - simpl. by rewrite DecimalZ.of_to.
  - destruct n; simpl; try done. intros [= E]. by apply Unsigned.to_uint_nonnil in E.
  - destruct n; simpl; try done. intros [= E]. by apply Unsigned.to_uint_nonnil in E.
Qed.

Lemma is_substring_app pat a b :
  is_substring pat b = true → is_substring pat (a +:+ b) = true.
Proof.
  intros H. induction a as [|x a IH]; [done|].
  rewrite str_app_cons. simpl. rewrite IH. apply orb_true_r.
Qed.

(** ** Service names that are one component *)

Lemma split_slash_component s : has_char "/" s = false → split_slash s = [s].
Proof.
  induction s as [|x s IH]; [done|]. simpl.
  intros [C H]%orb_false_iff. apply bool_decide_eq_false in C.
  rewrite decide_False by done. by rewrite IH.
Qed.

Lemma path_div_component (p : list string) s : is_component s → p /: s = p ++ [s].
Proof.
  intros (N0 & N1 & _ & H). unfold path_div, path_parts.
  rewrite split_slash_component by done.
  destruct s as [|x s]; [done|]. simpl in *.
  apply orb_false_iff in H as [C _]. rewrite C.
  by rewrite filter_cons_True, filter_nil.
Qed.

End Strings.

(* ===================================================================== *)
(** * [package.json] reads back *)

Section Json.

#[local] Arguments read_value : simpl never.
#[local] Arguments read_members : simpl never.
#[local] Arguments read_elements : simpl never.
#[local] Arguments String.append !_ _ : simpl nomatch.

(** An escaped character reads back as the character. *)
Lemma read_chars_escape_char c t :
  read_chars (escape_char c +:+ t) = push c (read_chars t).
Proof. destruct c as [[] [] [] [] [] [] [] []]; reflexivity. Qed.

Lemma read_chars_escape s rest :
  read_chars (escape s +:+ String dquote rest) = Some (s, rest).
Proof.
  induction s as [|c s IH]; [done|]. simpl escape.
  rewrite str_app_assoc, read_chars_escape_char, IH. done.
Qed.

Lemma encode_str_app s t :
  encode_str s +:+ t = String dquote (escape s +:+ String dquote t).
Proof. unfold encode_str. by rewrite str_app_cons, str_app_assoc. Qed.

Lemma dumps_shape service_name :
  json_dumps (package_json service_name)
  = package_head +:+ encode_str (service_name +:+ "-service") +:+ package_tail.
Proof.
  unfold json_dumps, package_json. cbn [json_encode map str_join].
  rewrite !str_app_assoc. reflexivity.
Qed.

Lemma read_value_S n s :
  read_value (S n) s = value_step (read_members n) (read_elements n) s.
Proof. reflexivity. Qed.

Lemma read_members_S n s :
  read_members (S n) s = members_step (read_value n) (read_members n) s.
Proof. reflexivity. Qed.

Lemma read_package service_name :
  read_value 20 (json_dumps (package_json service_name))
  = Some (package_json service_name, "").
Proof.
  rewrite dumps_shape, encode_str_app.
  set (T := escape (service_name +:+ "-service") +:+ String dquote package_tail).
  assert (read_chars T = Some (service_name +:+ "-service", package_tail)) as E
    by apply read_chars_escape.
  clearbody T.
  rewrite read_value_S. unfold value_step. simpl.
  rewrite read_members_S. unfold members_step. simpl.
  rewrite read_value_S. unfold value_step. simpl.
  rewrite E. simpl.
  vm_compute. reflexivity.
Qed.

(** More fuel reads the same. *)
Lemma value_step_mono m m' e e' :
  le_read m m' → le_read e e' → le_read (value_step m e) (value_step m' e').
Proof.
  intros Hm He s r. unfold value_step.
  repeat case_match; try done;
    repeat match goal with
    | |- (?f ?x ≫= _) = Some _ → _ =>
        destruct (f x) as [[]|] eqn:E; [|done];
        first [rewrite (Hm _ _ E)|rewrite (He _ _ E)]
    end; done.
Qed.

Lemma members_step_mono v v' m m' :
  le_read v v' → le_read m m' → le_read (members_step v m) (members_step v' m').
Proof.
  intros Hv Hm s r. unfold members_step.
  repeat case_match; try done.
  all: destruct (read_chars _) as [[k r1]|]; [|done]; simpl.
  all: repeat case_match; try done.
  all: destruct (v _) as [[x r3]|] eqn:E; [|done]; rewrite (Hv _ _ E); simpl.
  all: repeat case_match; try done.
  all: destruct (m _) as [[ms r5]|] eqn:E'; [|done]; by rewrite (Hm _ _ E').
Qed.

Lemma elements_step_mono v v' e e' :
  le_read v v' → le_read e e' → le_read (elements_step v e) (elements_step v' e').
Proof.
  intros Hv He s r. unfold elements_step.
  destruct (v _) as [[x r3]|] eqn:E; [|done]; rewrite (Hv _ _ E); simpl.
  repeat case_match; try done.
  all: destruct (e _) as [[ms r5]|] eqn:E'; [|done]; by rewrite (He _ _ E').
Qed.

Lemma read_mono n :
  le_read (read_value n) (read_value (S n)) ∧
  le_read (read_members n) (read_members (S n)) ∧
  le_read (read_elements n) (read_elements (S n)).
Proof.
  induction n as [|n (IHv & IHm & IHe)]; [done|].
  split_and!.
  - by apply value_step_mono.
  - by apply members_step_mono.
  - by apply elements_step_mono.
Qed.

Lemma read_value_le n n' s r :
  (n ≤ n')%nat → read_value n s = Some r → read_value n' s = Some r.
Proof.
  induction 1 as [|n' L IH]; [done|]. intros R. by apply read_mono, IH.
Qed.

(** The text written to [package.json] is JSON, and it denotes the
    dictionary the script built. *)
Lemma loads_package service_name :
  json_loads (json_dumps (package_json service_name))
  = Some (package_json service_name).
Proof.
  unfold json_loads.
  pose proof (read_package service_name) as R.
  apply (read_value_le _ (String.length (json_dumps (package_json service_name)))) in R;
    [by rewrite R|].
  rewrite dumps_shape, !str_length_app.
  assert (20 ≤ String.length package_tail)%nat
    by (apply Nat.leb_le; vm_compute; reflexivity).
  lia.
Qed.

End Json.

(* ===================================================================== *)
(** * The file system operations *)

Section FileSystem.

Implicit Types (fs : filesystem) (p d k cur : path) (l : string) (w : world).

(** ** Paths *)

Lemma split_last_snoc d l : split_last (d ++ [l]) = Some (d, l).
Proof.
  unfold split_last. rewrite reverse_snoc. simpl. by rewrite reverse_involutive.
Qed.

Lemma parent_snoc d l : parent (d ++ [l]) = d.
Proof. apply removelast_last. Qed.

Lemma norm_app cur p r : norm cur (p ++ r) = norm (norm cur p) r.
Proof. revert cur. induction p as [|c p IH]; intros cur; simpl; [done|]. by case_decide. Qed.

(** ** Walking down a path *)

(** Where a walk ends does not depend on the file system. *)
Lemma resolve_dir_norm fs cur p d : resolve_dir fs cur p = inr d → d = norm cur p.
Proof.
  revert cur. induction p as [|c p IH]; intros cur; simpl.
  - by intros [= <-].
  - case_decide; [by apply IH|].
    destruct (fs !! (cur ++ [c])) as [[]|]; [by apply IH|done..].
Qed.

Lemma resolve_dir_kept fs fs' cur p d :
  dirs_kept fs fs' → resolve_dir fs cur p = inr d → resolve_dir fs' cur p = inr d.
Proof.
  intros K. revert cur. induction p as [|c p IH]; intros cur; simpl; [done|].
  case_decide; [by apply IH|].
  destruct (fs !! (cur ++ [c])) as [[]|] eqn:E; [|done..].
  rewrite (K _ E). apply IH.
Qed.

Lemma resolve_dir_app fs cur p r :
  resolve_dir fs cur (p ++ r)
  = match resolve_dir fs cur p with
    | inr d => resolve_dir fs d r
    | inl e => inl e
    end.
Proof.
  revert cur. induction p as [|c p IH]; intros cur; simpl; [done|].
  case_decide; [by apply IH|].
  by destruct (fs !! (cur ++ [c])) as [[]|].
Qed.

(** What a successful lookup found, and what it finds once more
    directories are there. *)
Lemma lookup_path_inv fs p k o :
  lookup_path fs p = inr (k, o) →
  k = key_of p ∧
  ((o = Some Dir ∧ ∀ fs', dirs_kept fs fs' → lookup_path fs' p = inr (k, Some Dir)) ∨
   (o = fs !! k ∧ ∀ fs', dirs_kept fs fs' → lookup_path fs' p = inr (k, fs' !! k))).
Proof.
  unfold lookup_path, key_of. destruct (split_last p) as [[d l]|].
  - destruct (resolve_dir fs [] d) as [e|d'] eqn:R; [done|].
    pose proof (resolve_dir_norm _ _ _ _ R) as ->.
    case_decide; intros [= <- <-]; (split; [done|]); [left|right];
      (split; [done|]); intros fs' K;
      by rewrite (resolve_dir_kept _ _ _ _ _ K R).
  - intros [= <- <-]. split; [done|]. left. done.
Qed.

Lemma dirs_kept_insert fs k n : fs !! k ≠ Some Dir → dirs_kept fs (<[k := n]> fs).
Proof.
  intros N k' E. destruct (decide (k = k')) as [->|]; [done|].
  by rewrite lookup_insert_ne.
Qed.

Lemma dirs_kept_insert_dir fs k : dirs_kept fs (<[k := Dir]> fs).
Proof.
  intros k' E. destruct (decide (k = k')) as [->|].
  - by rewrite lookup_insert_eq.
  - by rewrite lookup_insert_ne.
Qed.

(** ** [os.mkdir] and [open] when they succeed *)

Lemma os_mkdir_inv fs p fs' :
  os_mkdir fs p = inr fs' →
  fs' = <[key_of p := Dir]> fs ∧ fs !! key_of p = None ∧
  lookup_path fs' p = inr (key_of p, Some Dir).
Proof.
  unfold os_mkdir. destruct (lookup_path fs p) as [e|[k [n|]]] eqn:L; [done..|].
  intros [= <-]. apply lookup_path_inv in L as (-> & [[? _]|[E K]]); [done|].
  split; [done|]. split; [done|].
  rewrite K by apply dirs_kept_insert_dir. by rewrite lookup_insert_eq.
Qed.

Lemma os_write_inv fs p content fs' :
  os_write fs p content = inr fs' →
  fs' = <[key_of p := File content]> fs ∧ fs !! key_of p ≠ Some Dir ∧
  lookup_path fs' p = inr (key_of p, Some (File content)).
Proof.
  unfold os_write. destruct (lookup_path fs p) as [e|[k o]] eqn:L; [done|].
  apply lookup_path_inv in L as (-> & [[-> _]|[-> K]]); [done|].
  intros W.
  assert (fs !! key_of p ≠ Some Dir ∧ fs' = <[key_of p := File content]> fs) as [N ->].
  { by destruct (fs !! key_of p) as [[]|]; simplify_eq. }
  split; [done|]. split; [done|].
  rewrite K by by apply dirs_kept_insert. by rewrite lookup_insert_eq.
Qed.

Lemma read_file_written fs p content fs' :
  os_write fs p content = inr fs' → read_file fs' p = Some content.
Proof.
  intros W. destruct (os_write_inv _ _ _ _ W) as (_ & _ & L).
  unfold read_file, os_stat. by rewrite L.
Qed.

Lemma read_file_kept fs fs' p content :
  dirs_kept fs fs' → fs' !! key_of p = fs !! key_of p →
  read_file fs p = Some content → read_file fs' p = Some content.
Proof.
  intros K E. unfold read_file, os_stat.
  destruct (lookup_path fs p) as [e|[k o]] eqn:L; [done|].
  apply lookup_path_inv in L as (-> & [[-> _]|[-> L]]); [done|].
  rewrite (L _ K), E. done.
Qed.

Lemma is_dir_kept fs fs' p :
  dirs_kept fs fs' → Path_is_dir fs p = true → Path_is_dir fs' p = true.
Proof.
  intros K. unfold Path_is_dir, os_stat.
  destruct (lookup_path fs p) as [e|[k o]] eqn:L; [done|].
  apply lookup_path_inv in L as (-> & [[-> L]|[-> L]]); rewrite (L _ K); [done|].
  destruct (fs !! key_of p) as [[]|] eqn:F; [|done..]. by rewrite (K _ F).
Qed.

Lemma is_dir_made fs p fs' : os_mkdir fs p = inr fs' → Path_is_dir fs' p = true.
Proof.
  intros W. destruct (os_mkdir_inv _ _ _ W) as (_ & _ & L).
  unfold Path_is_dir, os_stat. by rewrite L.
Qed.

Lemma key_of_snoc d l : l ≠ ".." → key_of (d ++ [l]) = norm [] d ++ [l].
Proof. intros N. unfold key_of. rewrite split_last_snoc. by rewrite decide_False. Qed.

(** ** Computations that return *)

Lemma bind_inv {A B} (m : M A) (f : A → M B) w b w' :
  (m ≫= f) w = (inr b, w') → ∃ a w1, m w = (inr a, w1) ∧ f a w1 = (inr b, w').
Proof.
  unfold mbind, M_bind. destruct (m w) as [[e|a] w1]; [done|]. eauto.
Qed.

Lemma print_inv s w a w' :
  print s w = (inr a, w') → w_fs w' = w_fs w ∧ w_out w' = w_out w ++ [line s].
Proof. by intros [= _ <-]. Qed.

Lemma write_file_inv p content w a w' :
  write_file p content w = (inr a, w') →
  w_fs w' = <[key_of p := File content]> (w_fs w) ∧
  dirs_kept (w_fs w) (w_fs w') ∧
  read_file (w_fs w') p = Some content ∧
  w_out w' = w_out w.
Proof.
  unfold write_file, lift_os.
  destruct (os_write (w_fs w) p content) as [e|fs'] eqn:W; [done|].
  intros [= _ <-]. simpl.
  destruct (os_write_inv _ _ _ _ W) as (-> & N & _).
  split; [done|]. split; [by apply dirs_kept_insert|].
  split; [|done]. by eapply read_file_written.
Qed.

Lemma Path_mkdir_rec_eq n p parents exist_ok w :
  Path_mkdir_rec n p parents exist_ok w
  = match os_mkdir (w_fs w) p with
    | inr fs' => (inr tt, World fs' (w_out w))
    | inl ENOENT =>
        if negb parents || bool_decide (parent p = p) then (inl (OSError ENOENT), w)
        else match n with
             | O => (inl (OSError ENOENT), w)
             | S n' =>
                 (Path_mkdir_rec n' (parent p) true true ;;
                  Path_mkdir_rec n' p false exist_ok) w
             end
    | inl e =>
        if negb exist_ok || negb (Path_is_dir (w_fs w) p) then (inl (OSError e), w)
        else (inr tt, w)
    end.
Proof. by destruct n. Qed.

(** [mkdir] that returns leaves [p] a directory and takes nothing away. *)
Lemma Path_mkdir_rec_inv n p parents exist_ok w a w' :
  Path_mkdir_rec n p parents exist_ok w = (inr a, w') →
  Path_is_dir (w_fs w') p = true ∧ w_fs w ⊆ w_fs w' ∧ w_out w' = w_out w.
Proof.
  revert p parents exist_ok w a w'.
  induction n as [|n IH]; intros p parents exist_ok w a w';
    rewrite Path_mkdir_rec_eq;
    destruct (os_mkdir (w_fs w) p) as [e|fs'] eqn:Mk.
  - destruct e; repeat case_match; try done; intros [= _ <-];
      (split; [by destruct (negb exist_ok), (Path_is_dir (w_fs w) p)|done]).
  - intros [= _ <-]. simpl. split; [by eapply is_dir_made|]. split; [|done].
    destruct (os_mkdir_inv _ _ _ Mk) as (-> & N & _). by apply insert_subseteq.
  - destruct e.
    + case_match; [done|].
      intros (a1 & w1 & R1 & R2)%bind_inv.
      apply IH in R1 as (_ & S1 & O1). apply IH in R2 as (D2 & S2 & O2).
      split; [done|]. split; [by etrans|congruence].
    + case_match; [done|]. intros [= _ <-].
      by destruct (negb exist_ok), (Path_is_dir (w_fs w) p).
    + case_match; [done|]. intros [= _ <-].
      by destruct (negb exist_ok), (Path_is_dir (w_fs w) p).
    + case_match; [done|]. intros [= _ <-].
      by destruct (negb exist_ok), (Path_is_dir (w_fs w) p).
  - intros [= _ <-]. simpl. split; [by eapply is_dir_made|]. split; [|done].
    destruct (os_mkdir_inv _ _ _ Mk) as (-> & N & _). by apply insert_subseteq.
Qed.

Lemma subseteq_dirs_kept fs fs' : fs ⊆ fs' → dirs_kept fs fs'.
Proof. intros S k E. by eapply lookup_weaken. Qed.

Lemma Path_mkdir_inv p parents exist_ok w a w' :
  Path_mkdir p parents exist_ok w = (inr a, w') →
  Path_is_dir (w_fs w') p = true ∧ w_fs w ⊆ w_fs w' ∧ w_out w' = w_out w.
Proof. apply Path_mkdir_rec_inv. Qed.

(** ** Computations that raise *)

Lemma bind_fails {A B} (m : M A) (f : A → M B) w e w' :
  (m ≫= f) w = (inl e, w') →
  m w = (inl e, w') ∨ ∃ a w1, m w = (inr a, w1) ∧ f a w1 = (inl e, w').
Proof.
  unfold mbind, M_bind. destruct (m w) as [[e1|a] w1]; [|by eauto].
  intros [= <- <-]. by left.
Qed.

(** [mkdir] and [open] raise nothing but [OSError]. *)
Lemma Path_mkdir_rec_fails n p parents exist_ok w e w' :
  Path_mkdir_rec n p parents exist_ok w = (inl e, w') → ∃ x, e = OSError x.
Proof.
  revert p parents exist_ok w e w'.
  induction n as [|n IH]; intros p parents exist_ok w e w';
    rewrite Path_mkdir_rec_eq;
    destruct (os_mkdir (w_fs w) p) as [x|fs'] eqn:Mk; try done.
  - destruct x; repeat case_match; intros [= <- _]; eauto.
  - destruct x; repeat case_match; try (intros [= <- _]; by eauto).
    intros [R|(a & w1 & _ & R)]%bind_fails; by eapply IH.
Qed.

Lemma write_file_fails p content w e w' :
  write_file p content w = (inl e, w') → ∃ x, e = OSError x.
Proof.
  unfold write_file, lift_os. destruct (os_write _ _ _); intros [= <- _]; eauto.
Qed.

(** ** Where nothing is in the way *)

Lemma ancestors_snoc cur p l :
  ancestors cur (p ++ [l]) = ancestors cur p ++ [cur ++ p ++ [l]].
Proof.
  revert cur. induction p as [|c p IH]; intros cur; simpl; [done|].
  rewrite IH. by rewrite <- !app_assoc.
Qed.

Lemma add_entries_app fs es es' :
  add_entries fs (es ++ es') = add_entries (add_entries fs es) es'.
Proof. apply foldl_app. Qed.

Lemma add_entries_id fs es :
  (∀ e, e ∈ es → fs !! e.1 = Some e.2) → add_entries fs es = fs.
Proof.
  induction es as [|e es IH]; intros H; [done|]. simpl.
  unfold add_entries in *. simpl.
  rewrite insert_id by (apply H; left). apply IH. intros e' In. apply H. by right.
Qed.

Lemma dir_entries_snoc p l : dir_entries (p ++ [l]) = dir_entries p ++ [(p ++ [l], Dir)].
Proof. unfold dir_entries. rewrite ancestors_snoc, fmap_app. done. Qed.

Lemma lookup_add_dirs fs ks k :
  add_entries fs ((λ k, (k, Dir)) <$> ks) !! k
  = if decide (k ∈ ks) then Some Dir else fs !! k.
Proof.
  revert fs. induction ks as [|k' ks IH]; intros fs.
  - by rewrite decide_False by by intros ?%elem_of_nil.
  - change (add_entries fs ((λ k, (k, Dir)) <$> k' :: ks))
      with (add_entries (<[k' := Dir]> fs) ((λ k, (k, Dir)) <$> ks)).
    rewrite IH.
    destruct (decide (k ∈ ks)) as [In|Nin].
    + by rewrite decide_True by by right.
    + destruct (decide (k = k')) as [->|Ne].
      * rewrite decide_True by by left. by rewrite lookup_insert_eq.
      * rewrite decide_False by (by intros [?|?]%elem_of_cons).
        by rewrite lookup_insert_ne.
Qed.

(** On a path without [..] the walk ends at the path itself, or stops at
    the first component that is no directory. *)
Lemma resolve_dir_ok fs cur p :
  plain p → (∀ k, k ∈ ancestors cur p → fs !! k = Some Dir) →
  resolve_dir fs cur p = inr (cur ++ p).
Proof.
  intros P. revert cur. induction P as [|c p C P IH]; intros cur A; simpl.
  - by rewrite app_nil_r.
  - rewrite decide_False by done. rewrite A by (simpl; left).
    rewrite IH; [by rewrite <- app_assoc|]. intros k In. apply A. simpl. by right.
Qed.

Lemma resolve_dir_plain fs cur p :
  plain p → (∀ k c, k ∈ ancestors cur p → fs !! k ≠ Some (File c)) →
  (resolve_dir fs cur p = inr (cur ++ p) ∧ ∀ k, k ∈ ancestors cur p → fs !! k = Some Dir) ∨
  (resolve_dir fs cur p = inl ENOENT ∧ ∃ k, k ∈ ancestors cur p ∧ fs !! k = None).
Proof.
  intros P. revert cur. induction P as [|c p C P IH]; intros cur A; simpl.
  - left. rewrite app_nil_r. split; [done|]. intros k In. by apply elem_of_nil in In.
  - rewrite decide_False by done.
    destruct (fs !! (cur ++ [c])) as [[|x]|] eqn:E.
    + destruct (IH (cur ++ [c])) as [[R D]|[R (k & In & N)]].
      { intros k x In. apply A. simpl. by right. }
      * left. rewrite R, <- app_assoc. split; [done|].
        intros k [->|In]%elem_of_cons; auto.
      * right. split; [done|]. exists k. split; [by right|done].
    + exfalso. eapply A; [|done]. simpl. left.
    + right. split; [done|]. exists (cur ++ [c]). split; [left|done].
Qed.

Lemma wf_ancestors fs k n :
  wf_fs fs → fs !! k = Some n → ∀ k', k' ∈ ancestors [] (parent k) → fs !! k' = Some Dir.
Proof.
  intros W. revert n. induction k as [|l k IH] using rev_ind; intros n E k' In.
  - by apply elem_of_nil in In.
  - rewrite parent_snoc in In.
    destruct (W _ _ E) as [_ [Z|D]]; rewrite parent_snoc in *.
    + subst. by apply elem_of_nil in In.
    + destruct k as [|l' k0 _] using rev_ind; [by apply elem_of_nil in In|].
      rewrite ancestors_snoc in In. apply elem_of_app in In as [In|In].
      * eapply IH; [done|]. by rewrite parent_snoc.
      * apply list_elem_of_singleton in In as ->. done.
Qed.

Lemma wf_absent_below fs d r :
  wf_fs fs → d ≠ [] → fs !! d = None → fs !! (d ++ r) = None.
Proof.
  intros W Nd A. induction r as [|l r IH] using rev_ind; [by rewrite app_nil_r|].
  destruct (fs !! (d ++ r ++ [l])) as [n|] eqn:E; [|done].
  destruct (W _ _ E) as [_ [Z|D]]; rewrite app_assoc, parent_snoc in *.
  - by apply app_eq_nil in Z as [? _].
  - congruence.
Qed.

Lemma ancestors_self cur p l : cur ++ p ++ [l] ∈ ancestors cur (p ++ [l]).
Proof. rewrite ancestors_snoc. apply elem_of_app. right. left. Qed.

Lemma ancestors_length cur p k : k ∈ ancestors cur p → (length cur < length k ≤ length cur + length p)%nat.
Proof.
  revert cur. induction p as [|c p IH]; intros cur; simpl; [by intros ?%elem_of_nil|].
  intros [->|In]%elem_of_cons.
  - rewrite length_app. simpl. lia.
  - apply IH in In. rewrite length_app in In. simpl in In. lia.
Qed.

Lemma no_file_above_spec fs p :
  no_file_above fs p → ∀ k c, k ∈ ancestors [] p → fs !! k ≠ Some (File c).
Proof.
  unfold no_file_above. rewrite Forall_forall. intros NF k c In E.
  apply NF in In. by rewrite E in In.
Qed.

Lemma no_file_above_init fs d l : no_file_above fs (d ++ [l]) → no_file_above fs d.
Proof.
  unfold no_file_above. rewrite ancestors_snoc. by intros [? _]%Forall_app.
Qed.

Lemma os_mkdir_ok fs d l :
  resolve_dir fs [] d = inr d → l ≠ ".." → fs !! (d ++ [l]) = None →
  os_mkdir fs (d ++ [l]) = inr (<[d ++ [l] := Dir]> fs).
Proof.
  intros R N A. unfold os_mkdir, lookup_path.
  by rewrite split_last_snoc, R, decide_False, A.
Qed.

Lemma os_write_ok fs d l content :
  resolve_dir fs [] d = inr d → l ≠ ".." → fs !! (d ++ [l]) ≠ Some Dir →
  os_write fs (d ++ [l]) content = inr (<[d ++ [l] := File content]> fs).
Proof.
  intros R N A. unfold os_write, lookup_path.
  rewrite split_last_snoc, R, decide_False by done.
  by destruct (fs !! (d ++ [l])) as [[]|].
Qed.

Lemma Path_mkdir_ok fs out d l n parents exist_ok :
  resolve_dir fs [] d = inr d → l ≠ ".." → fs !! (d ++ [l]) = None →
  Path_mkdir_rec n (d ++ [l]) parents exist_ok (World fs out)
  = (inr tt, World (<[d ++ [l] := Dir]> fs) out).
Proof.
  intros R N A. rewrite Path_mkdir_rec_eq. simpl. by rewrite os_mkdir_ok.
Qed.

(** [mkdir(parents=True, exist_ok=True)] makes every directory that is
    missing on the way. *)
Lemma Path_mkdir_parents_ok fs out p n :
  wf_fs fs → plain p → no_file_above fs p → (length p ≤ n)%nat →
  Path_mkdir_rec n p true true (World fs out)
  = (inr tt, World (add_entries fs (dir_entries p)) out).
Proof.
  intros W. revert n. induction p as [|l d IH] using rev_ind; intros n P NF Ln.
  - rewrite Path_mkdir_rec_eq. reflexivity.
  - apply Forall_app in P as [Pd Pl]. rewrite Forall_singleton in Pl.
    rewrite length_app in Ln. simpl in Ln.
    pose proof (no_file_above_init _ _ _ NF) as NFd.
    pose proof (no_file_above_spec _ _ NF) as NF'.
    rewrite dir_entries_snoc, add_entries_app.
    destruct (resolve_dir_plain fs [] d Pd (no_file_above_spec _ _ NFd))
      as [[R D]|[R (k & In & N)]]; simpl in R.
    + (* the parent is there *)
      rewrite (add_entries_id fs (dir_entries d)).
      2:{ intros e (k & -> & In)%list_elem_of_fmap. simpl. by apply D. }
      destruct (fs !! (d ++ [l])) as [[|c]|] eqn:E.
      * rewrite Path_mkdir_rec_eq. simpl.
        unfold os_mkdir, lookup_path, Path_is_dir, os_stat, lookup_path.
        rewrite split_last_snoc, R, decide_False, E by done. simpl.
        unfold add_entries. simpl. by rewrite insert_id.
      * exfalso. eapply NF'; [|done]. apply (ancestors_self [] d l).
      * by apply Path_mkdir_ok.
    + (* some directory above is missing *)
      assert (fs !! (d ++ [l]) = None) as A.
      { destruct (fs !! (d ++ [l])) as [x|] eqn:E; [|done].
        pose proof (wf_ancestors _ _ _ W E k) as D. rewrite parent_snoc in D.
        rewrite D in N; done. }
      rewrite Path_mkdir_rec_eq. simpl.
      unfold os_mkdir at 1. unfold lookup_path. rewrite split_last_snoc, R.
      rewrite parent_snoc.
      rewrite bool_decide_eq_false_2.
      2:{ intros E. apply (f_equal length) in E. rewrite length_app in E. simpl in E. lia. }
      destruct n as [|n]; [lia|]. simpl.
      unfold mbind, M_bind. rewrite IH by (done || lia).
      apply Path_mkdir_ok; [|done|].
      * change d with ([] ++ d) at 2. apply resolve_dir_ok; [done|].
        intros k' In'. unfold dir_entries. rewrite lookup_add_dirs. by rewrite decide_True.
      * unfold dir_entries. rewrite lookup_add_dirs. rewrite decide_False; [done|].
        intros In'%ancestors_length. rewrite length_app in In'. simpl in In'. lia.
Qed.

Lemma resolve_dir_ext fs fs' cur p :
  plain p → (∀ k, k ∈ ancestors cur p → fs' !! k = fs !! k) →
  resolve_dir fs' cur p = resolve_dir fs cur p.
Proof.
  intros P. revert cur. induction P as [|c p C P IH]; intros cur A; simpl; [done|].
  rewrite !decide_False by done. rewrite A by (simpl; left).
  destruct (fs !! (cur ++ [c])) as [[]|]; [|done..].
  apply IH. intros k In. apply A. simpl. by right.
Qed.

Lemma resolve_insert_longer fs d k n :
  plain d → (length d < length k)%nat →
  resolve_dir (<[k := n]> fs) [] d = resolve_dir fs [] d.
Proof.
  intros P L. apply resolve_dir_ext; [done|]. intros k' In%ancestors_length.
  apply lookup_insert_ne. intros <-. simpl in In. lia.
Qed.

Lemma resolve_dir_snoc fs d l :
  resolve_dir fs [] d = inr d → l ≠ ".." → fs !! (d ++ [l]) = Some Dir →
  resolve_dir fs [] (d ++ [l]) = inr (d ++ [l]).
Proof. intros R N E. rewrite resolve_dir_app, R. simpl. by rewrite decide_False, E. Qed.

Lemma not_exists_absent fs p :
  wf_fs fs → plain p → no_file_above fs p → Path_exists fs p = false →
  p ≠ [] ∧ fs !! p = None.
Proof.
  intros W P NF. unfold Path_exists, os_stat, lookup_path.
  destruct p as [|l d _] using rev_ind; [done|].
  rewrite split_last_snoc. intros Ex. split; [by destruct d|].
  apply Forall_app in P as [Pd Pl]. rewrite Forall_singleton in Pl.
  destruct (resolve_dir_plain fs [] d Pd
              (no_file_above_spec _ _ (no_file_above_init _ _ _ NF)))
    as [[R D]|[R (k & In & N)]].
  - simpl in R. rewrite R, decide_False in Ex by done.
    by destruct (fs !! (d ++ [l])).
  - destruct (fs !! (d ++ [l])) as [x|] eqn:E; [|done].
    pose proof (wf_ancestors _ _ _ W E k) as D. rewrite parent_snoc in D.
    rewrite D in N; done.
Qed.

Lemma norm_snoc cur d l : l ≠ ".." → norm cur (d ++ [l]) = norm cur d ++ [l].
Proof. intros N. rewrite norm_app. simpl. by rewrite decide_False. Qed.

Lemma mret_inv {A} (a b : A) w w' : (mret a : M A) w = (inr b, w') → w' = w.
Proof. by intros [= _ <-]. Qed.

Lemma lookup_add_entries_notin fs es k :
  k ∉ es.*1 → add_entries fs es !! k = fs !! k.
Proof.
  revert fs. induction es as [|e es IH]; intros fs Nin; [done|].
  change (add_entries fs (e :: es)) with (add_entries (<[e.1 := e.2]> fs) es).
  rewrite fmap_cons in Nin. apply not_elem_of_cons in Nin as [Ne Nin].
  rewrite IH by done. by apply lookup_insert_ne.
Qed.

Lemma lookup_add_entries_in fs es k n :
  NoDup es.*1 → (k, n) ∈ es → add_entries fs es !! k = Some n.
Proof.
  revert fs. induction es as [|e es IH]; intros fs ND In;
    [by apply elem_of_nil in In|].
  change (add_entries fs (e :: es)) with (add_entries (<[e.1 := e.2]> fs) es).
  rewrite fmap_cons in ND. apply NoDup_cons in ND as [Nin ND].
  apply elem_of_cons in In as [<-|In]; [|by apply IH].
  rewrite lookup_add_entries_notin by done. apply lookup_insert_eq.
Qed.

Lemma written_files_spec fs fs' k :
  k ∈ written_files fs fs' ↔ is_file (fs' !! k) = true ∧ fs !! k ≠ fs' !! k.
Proof.
  unfold written_files. rewrite list_elem_of_filter. split; [tauto|].
  intros [F N]. split; [done|].
  destruct (fs' !! k) as [[|c]|] eqn:E; try done.
  apply list_elem_of_fmap. exists (k, File c). split; [done|].
  by apply elem_of_map_to_list.
Qed.

Lemma written_files_NoDup fs fs' : NoDup (written_files fs fs').
Proof. apply NoDup_filter, NoDup_fst_map_to_list. Qed.

(** Entries put where nothing was, or where the same entry was, take
    nothing away. *)
Lemma add_entries_subseteq fs es :
  NoDup es.*1 → Forall (λ e, fs !! e.1 = None ∨ fs !! e.1 = Some e.2) es →
  fs ⊆ add_entries fs es.
Proof.
  revert fs. induction es as [|e es IH]; intros fs ND F; [done|].
  change (add_entries fs (e :: es)) with (add_entries (<[e.1 := e.2]> fs) es).
  rewrite fmap_cons in ND. apply NoDup_cons in ND as [Nin ND].
  apply Forall_cons in F as [Fe F].
  trans (<[e.1 := e.2]> fs).
  - destruct Fe as [N|S]; [by apply insert_subseteq|by rewrite insert_id].
  - apply IH; [done|]. rewrite Forall_forall in *. intros e' In.
    rewrite lookup_insert_ne; [by apply F|].
    intros E. apply Nin. rewrite E. apply list_elem_of_fmap. eauto.
Qed.

Lemma NoDup_ancestors cur p : NoDup (ancestors cur p).
Proof.
  revert cur. induction p as [|c p IH]; intros cur; simpl; constructor; [|done].
  intros In%ancestors_length. lia.
Qed.

End FileSystem.

(** Every step of a run that returned, turned into what it did to the
    file system. *)
Ltac inv_run :=
  repeat match goal with
  | H : (_ ≫= _) _ = (inr _, _) |- _ => apply bind_inv in H as (? & ? & ? & H)
  | H : mret _ _ = (inr _, _) |- _ => apply mret_inv in H; subst
  | H : print _ _ = (inr _, _) |- _ => apply print_inv in H as [H _]
  | H : write_file _ _ _ = (inr _, _) |- _ =>
      let E := fresh "E" in let K := fresh "K" in let F := fresh "F" in
      apply write_file_inv in H as (E & K & F & _)
  | H : Path_mkdir _ _ _ _ = (inr _, _) |- _ =>
      let D := fresh "D" in let K := fresh "K" in
      apply Path_mkdir_inv in H as (D & K%subseteq_dirs_kept & _)
  end.

(** Every step a run that raised may have raised at. *)
Ltac fail_run :=
  repeat match goal with
  | H : (_ ≫= _) _ = (inl _, _) |- _ =>
      apply bind_fails in H as [H|(? & ? & _ & H)]
  | H : print _ _ = (inl _, _) |- _ => discriminate H
  | H : mret _ _ = (inl _, _) |- _ => discriminate H
  | H : Path_mkdir _ _ _ _ = (inl _, _) |- _ => apply Path_mkdir_rec_fails in H
  | H : write_file _ _ _ = (inl _, _) |- _ => apply write_file_fails in H
  end.

Ltac key_neq :=
  rewrite ?key_of_snoc, ?norm_snoc by done; rewrite <- ?app_assoc;
  intros ?%app_inv_head; discriminate.

(** Facts about one world of the run carried over to the next one. *)
Ltac carry :=
  repeat match goal with
  | F : Path_is_dir (w_fs ?a) _ = true, E : w_fs ?b = w_fs ?a |- _ =>
      rewrite <- E in F
  | F : read_file (w_fs ?a) _ = Some _, E : w_fs ?b = w_fs ?a |- _ =>
      rewrite <- E in F
  | F : Path_is_dir (w_fs ?a) _ = true, K : dirs_kept (w_fs ?a) (w_fs ?b) |- _ =>
      apply (is_dir_kept _ _ _ K) in F
  | F : read_file (w_fs ?a) ?p = Some _,
    K : dirs_kept (w_fs ?a) (w_fs ?b), E : w_fs ?b = <[_ := _]> (w_fs ?a) |- _ =>
      apply (read_file_kept _ _ _ _ K) in F;
        [|rewrite E; apply lookup_insert_ne; key_neq]
  end.

Ltac below_neq := rewrite <- ?app_assoc; intros ?%app_inv_head; discriminate.

(** The side conditions of a step below the service directory: the
    directory the entry goes into resolves, and nothing is in the way. *)
Ltac resolved :=
  lazymatch goal with
  | R : resolve_dir _ [] ?sd = inr ?sd |- resolve_dir _ [] ?sd = inr ?sd =>
      rewrite ?resolve_insert_longer by (done || (rewrite ?length_app; simpl; lia));
      exact R
  | |- resolve_dir _ [] (?sd ++ [_]) = inr _ =>
      apply resolve_dir_snoc; [resolved|done|];
      rewrite ?lookup_insert_ne by below_neq; apply lookup_insert_eq
  end.
Ltac absent :=
  lazymatch goal with
  | A : ∀ r, r ≠ [] → _ !! (_ ++ r) = None |- _ =>
      rewrite ?lookup_insert_ne by below_neq; rewrite <- ?app_assoc;
      rewrite A by done; done
  end.

(** The paths of the skeleton, with the [/] of each worked out. *)
Ltac divide sd :=
  change (sd /: "config" /: "express.config.js")
    with ((sd ++ ["config"]) ++ ["express.config.js"]) in *;
  change (sd /: "src") with (sd ++ ["src"]) in *;
  change (sd /: "config") with (sd ++ ["config"]) in *;
  change (sd /: "models") with (sd ++ ["models"]) in *;
  change (sd /: "scripts") with (sd ++ ["scripts"]) in *;
  change (sd /: "package.json") with (sd ++ ["package.json"]) in *;
  change (sd /: ".env") with (sd ++ [".env"]) in *;
  change (sd /: "index.js") with (sd ++ ["index.js"]) in *;
  change (sd /: "index.route.js") with (sd ++ ["index.route.js"]) in *;
  change (sd /: "README.md") with (sd ++ ["README.md"]) in *.

(* ===================================================================== *)
(** * The scaffolder *)

Section Scaffold.

Context (root : path) (int_of_str : string → option Z)
        (str_upper str_title : string → string).

Local Abbreviation service_dir := (service_dir root).
Local Abbreviation dirs := (dirs root).
Local Abbreviation create_service := (create_service root str_upper str_title).
Local Abbreviation main := (main root int_of_str str_upper str_title).
Local Abbreviation run := (run root int_of_str str_upper str_title).
Local Abbreviation scaffold_files := (scaffold_files root str_upper str_title).
Local Abbreviation skeleton := (skeleton root str_upper str_title).
Local Abbreviation success_output := (success_output root).
Local Abbreviation paths_fit := (paths_fit root).

(** ** The service directory of a plain name *)

Lemma service_dir_component service_name :
  is_component service_name →
  service_dir service_name = root ++ ["services"; service_name].
Proof.
  intros C. unfold service_dir. rewrite (path_div_component _ service_name) by done.
  change (root /: "services") with (root ++ ["services"]). by rewrite <- app_assoc.
Qed.

Lemma service_dir_plain service_name :
  plain root → is_component service_name → plain (service_dir service_name).
Proof.
  intros P C. rewrite service_dir_component by done.
  apply Forall_app. split; [done|]. destruct C as (_ & _ & N & _).
  by repeat constructor.
Qed.

(** ** The branches that end the run early *)

Lemma create_service_exists service_name port w :
  Path_exists (w_fs w) (service_dir service_name) = true →
  create_service service_name port w
  = (inl (SystemExit 1),
     World (w_fs w) (w_out w ++ exists_error_text service_name)).
Proof.
  intros E. unfold create_service. rewrite E. reflexivity.
Qed.

Lemma main_wrong_argc scaffold argv w :
  length argv ≠ 3%nat →
  main_with int_of_str scaffold argv w
  = (inl (SystemExit 1), World (w_fs w) (w_out w ++ usage_text)).
Proof.
  intros L. destruct argv as [|a0 [|a1 [|a2 [|a3 argv]]]]; simpl in L;
    try lia; cbv [main_with mbind M_bind print sys_exit raise w_fs w_out usage_text];
    by rewrite <- app_assoc.
Qed.

Lemma main_bad_port scaffold prog service_name port_arg w :
  int_of_str port_arg = None →
  main_with int_of_str scaffold [prog; service_name; port_arg] w
  = (inl (SystemExit 1), World (w_fs w) (w_out w ++ port_error_text)).
Proof. intros E. unfold main_with. rewrite E. reflexivity. Qed.

Lemma tail_length (argv : list string) : length (tail argv) ≠ 2%nat ↔ length argv ≠ 3%nat.
Proof. destruct argv; simpl; lia. Qed.

Lemma run_wrong_argc argv fs :
  length argv ≠ 3%nat → run argv fs = (1, fs, usage_text).
Proof.
  intros L. unfold run, main. by rewrite main_wrong_argc.
Qed.

Lemma run_bad_port prog service_name port_arg fs :
  int_of_str port_arg = None →
  run [prog; service_name; port_arg] fs = (1, fs, port_error_text).
Proof.
  intros E. unfold run, main. by rewrite main_bad_port.
Qed.

Lemma run_exists prog service_name port_arg port fs :
  int_of_str port_arg = Some port →
  Path_exists fs (service_dir service_name) = true →
  run [prog; service_name; port_arg] fs = (1, fs, exists_error_text service_name).
Proof.
  intros E Ex. unfold run, main, main_with. rewrite E.
  by rewrite create_service_exists.
Qed.

Lemma run_exists_status prog service_name port_arg fs :
  Path_exists fs (service_dir service_name) = true →
  (run [prog; service_name; port_arg] fs).1 = (1, fs).
Proof.
  intros Ex. destruct (int_of_str port_arg) as [port|] eqn:E.
  - by erewrite run_exists.
  - by rewrite run_bad_port.
Qed.

Lemma is_dir_exists fs p : Path_is_dir fs p = true → Path_exists fs p = true.
Proof.
  unfold Path_is_dir, Path_exists. by destruct (os_stat fs p) as [|[]].
Qed.

(** ** A run that raises *)

(** [create_service] raises nothing but [SystemExit(1)] and [OSError]. *)
Lemma create_service_fails service_name port w e w' :
  create_service service_name port w = (inl e, w') →
  e = SystemExit 1 ∨ ∃ x, e = OSError x.
Proof.
  unfold create_service.
  destruct (Path_exists (w_fs w) (service_dir service_name)).
  - intros [= <- _]. by left.
  - unfold dirs. cbn [for_each]. intros H. right. fail_run; done.
Qed.

(** The exit status is 0 or 1. *)
Lemma run_status argv fs : (run argv fs).1.1 = 0 ∨ (run argv fs).1.1 = 1.
Proof.
  destruct (decide (length argv = 3%nat)) as [L|L];
    [|right; by rewrite run_wrong_argc].
  destruct argv as [|a0 [|a1 [|a2 [|a3 argv]]]]; simplify_eq/=.
  destruct (int_of_str a2) as [port|] eqn:E;
    [|right; by rewrite run_bad_port].
  unfold run, main, main_with. rewrite E.
  destruct (create_service a1 port (World fs [])) as [[e|[]] w'] eqn:R; [|by left].
  right. by apply create_service_fails in R as [->|[x ->]].
Qed.

(** A run ends with status 0 only when [create_service] was called and
    returned. *)
Lemma run_zero argv fs :
  (run argv fs).1.1 = 0 →
  ∃ prog service_name port_arg port w',
    argv = [prog; service_name; port_arg] ∧
    int_of_str port_arg = Some port ∧
    create_service service_name port (World fs []) = (inr tt, w') ∧
    (run argv fs).1.2 = w_fs w'.
Proof.
  destruct (decide (length argv = 3%nat)) as [L|L];
    [|by rewrite run_wrong_argc].
  destruct argv as [|a0 [|a1 [|a2 [|a3 argv]]]]; simplify_eq/=.
  destruct (int_of_str a2) as [port|] eqn:E;
    [|by rewrite run_bad_port].
  unfold run, main, main_with. rewrite E.
  destruct (create_service a1 port (World fs [])) as [[e|[]] w'] eqn:R.
  - by apply create_service_fails in R as [->|[x ->]].
  - intros _. by eexists _, _, _, _, _.
Qed.

(** ** A run that returns *)

(** What [create_service] leaves when it returns. *)
Lemma create_service_success service_name port w w' :
  create_service service_name port w = (inr tt, w') →
  Path_exists (w_fs w) (service_dir service_name) = false ∧
  Forall (λ d, Path_is_dir (w_fs w') d = true) (dirs service_name) ∧
  Forall (λ e, ∃ c, e.2 = File c ∧ read_file (w_fs w') e.1 = Some c)
         (scaffold_files service_name port).
Proof.
  unfold create_service.
  destruct (Path_exists (w_fs w) (service_dir service_name)) eqn:Ex; [done|].
  unfold dirs, scaffold_files. cbn [for_each]. intros H.
  set (sd := service_dir service_name) in *. divide sd.
  inv_run. carry.
  split; [done|]. split; repeat constructor; simpl; eauto.
Qed.

(** [create_service] where nothing is in its way. *)
Lemma create_service_ok service_name port fs out :
  wf_fs fs → plain (service_dir service_name) →
  no_file_above fs (service_dir service_name) →
  Path_exists fs (service_dir service_name) = false →
  create_service service_name port (World fs out)
  = (inr tt, World (add_entries fs (skeleton service_name port))
                   (out ++ success_output service_name port)).
Proof.
  intros W P NF Ex.
  destruct (not_exists_absent _ _ W P NF Ex) as [Nn A].
  unfold create_service. simpl w_fs. rewrite Ex.
  unfold skeleton, scaffold_dirs, scaffold_files,
    success_output, dirs.
  set (sd := service_dir service_name) in *. divide sd.
  rewrite !add_entries_app.
  set (fs1 := add_entries fs (dir_entries sd)).
  assert (resolve_dir fs1 [] sd = inr sd) as R1.
  { change sd with ([] ++ sd) at 2. apply resolve_dir_ok; [done|].
    intros k In. unfold fs1, dir_entries. rewrite lookup_add_dirs. by rewrite decide_True. }
  assert (∀ r, r ≠ [] → fs1 !! (sd ++ r) = None) as A1.
  { intros r Nr. unfold fs1, dir_entries. rewrite lookup_add_dirs.
    rewrite decide_False; [by apply wf_absent_below|].
    intros In%ancestors_length. rewrite length_app in In. destruct r; [done|].
    simpl in In. lia. }
  cbn [for_each fmap list_fmap].
  unfold mbind, M_bind, mret, M_ret, print, Path_mkdir, write_file, lift_os.
  cbn [w_fs w_out].
  rewrite Path_mkdir_parents_ok by done. fold fs1.
  repeat (rewrite Path_mkdir_ok; [cbn [w_fs w_out]|resolved|done|absent]).
  repeat (rewrite os_write_ok; [cbn [w_fs w_out]|resolved|done|absent]).
  unfold add_entries. cbn [foldl fst snd].
  rewrite <- !app_assoc. reflexivity.
Qed.

Lemma run_ok prog service_name port_arg port fs :
  int_of_str port_arg = Some port →
  wf_fs fs → plain (service_dir service_name) →
  no_file_above fs (service_dir service_name) →
  Path_exists fs (service_dir service_name) = false →
  run [prog; service_name; port_arg] fs
  = (0, add_entries fs (skeleton service_name port),
     success_output service_name port).
Proof.
  intros E W P NF Ex. unfold run, main, main_with.
  rewrite E. by rewrite create_service_ok.
Qed.

Lemma skeleton_keys service_name port :
  (skeleton service_name port).*1
  = ancestors [] (service_dir service_name)
    ++ ((λ r, service_dir service_name ++ r) <$> below_service_dir).
Proof.
  unfold skeleton, scaffold_dirs, scaffold_files, dir_entries.
  set (sd := service_dir service_name). divide sd.
  rewrite !fmap_app, <- list_fmap_compose, list_fmap_id.
  simpl. by rewrite <- !app_assoc.
Qed.

Lemma skeleton_NoDup service_name port : NoDup (skeleton service_name port).*1.
Proof.
  rewrite skeleton_keys. apply NoDup_app. split_and!.
  - apply NoDup_ancestors.
  - intros k In%ancestors_length (r & -> & Hr)%list_elem_of_fmap.
    rewrite length_app in In. simpl in In.
    assert ([] ∉ below_service_dir) as N0 by by apply (bool_decide_unpack _).
    destruct r; [done|]. simpl in In. lia.
  - apply NoDup_fmap_2; [apply _|]. by apply (bool_decide_unpack _).
Qed.

(** The skeleton goes where nothing was: what was there stays. *)
Lemma skeleton_subseteq service_name port fs :
  wf_fs fs → plain (service_dir service_name) →
  no_file_above fs (service_dir service_name) →
  Path_exists fs (service_dir service_name) = false →
  fs ⊆ add_entries fs (skeleton service_name port).
Proof.
  intros W P NF Ex.
  destruct (not_exists_absent _ _ W P NF Ex) as [Nn A].
  apply add_entries_subseteq; [apply skeleton_NoDup|].
  unfold skeleton, scaffold_dirs, scaffold_files, dir_entries.
  set (sd := service_dir service_name) in *. divide sd.
  rewrite !Forall_app. split_and!.
  - rewrite Forall_fmap. unfold no_file_above in NF.
    eapply Forall_impl; [exact NF|]. simpl. intros k F.
    destruct (fs !! k) as [[]|]; by auto.
  - repeat (apply Forall_cons_2;
      [left; simpl; rewrite <- ?app_assoc; by apply wf_absent_below|]).
    apply Forall_nil_2.
  - repeat (apply Forall_cons_2;
      [left; simpl; rewrite <- ?app_assoc; by apply wf_absent_below|]).
    apply Forall_nil_2.
Qed.

(** The regular files a run writes are the six of the skeleton. *)
Lemma skeleton_written service_name port fs :
  wf_fs fs → plain (service_dir service_name) →
  no_file_above fs (service_dir service_name) →
  Path_exists fs (service_dir service_name) = false →
  written_files fs (add_entries fs (skeleton service_name port))
  ≡ₚ (scaffold_files service_name port).*1.
Proof.
  intros W P NF Ex.
  destruct (not_exists_absent _ _ W P NF Ex) as [Nn A].
  pose proof (skeleton_NoDup service_name port) as ND.
  assert (∀ e, e ∈ scaffold_dirs root service_name → e.2 = Dir) as Ds.
  { unfold scaffold_dirs, dir_entries. intros e [In|In]%elem_of_app.
    - by apply list_elem_of_fmap in In as (k & -> & _).
    - repeat (apply elem_of_cons in In as [->|In]; [done|]).
      by apply elem_of_nil in In. }
  assert (∀ e, e ∈ scaffold_files service_name port →
               is_file (Some e.2) = true ∧ fs !! e.1 = None) as Fs.
  { unfold scaffold_files. set (sd := service_dir service_name) in *. divide sd.
    intros e In.
    repeat (apply elem_of_cons in In as [->|In];
            [split; [done|]; simpl; rewrite <- ?app_assoc; by apply wf_absent_below|]).
    by apply elem_of_nil in In. }
  apply NoDup_Permutation.
  - apply written_files_NoDup.
  - unfold skeleton in ND. rewrite fmap_app in ND. by apply NoDup_app in ND as (_ & _ & ?).
  - intros k. rewrite written_files_spec. split.
    + intros [F N].
      destruct (decide (k ∈ (skeleton service_name port).*1)) as [In|Nin];
        [|by rewrite lookup_add_entries_notin in N].
      unfold skeleton in In. rewrite fmap_app in In.
      apply elem_of_app in In as [In|In]; [|done].
      apply list_elem_of_fmap in In as ([k' n] & -> & In). simpl in *.
      rewrite (lookup_add_entries_in _ _ k' n) in F; [|done|].
      * apply Ds in In. simpl in In. by subst.
      * unfold skeleton. apply elem_of_app. by left.
    + intros ([k' n] & -> & In)%list_elem_of_fmap. simpl.
      destruct (Fs _ In) as [F N]. simpl in *.
      rewrite (lookup_add_entries_in _ _ k' n); [|done|].
      * split; [done|]. by rewrite N.
      * unfold skeleton. apply elem_of_app. by right.
Qed.

Lemma env_has_port_line service_name port :
  has_line ("PORT=" +:+ str_of_int port)
           (env_content str_upper str_title service_name port).
Proof.
  apply has_line_unlines.
  - rewrite !elem_of_cons. auto 10.
  - rewrite has_char_app, str_of_int_no_LF. reflexivity.
Qed.

(** ** The claims *)


(** C2. When the destination directory is there already, the run creates
    and changes nothing in the file system and ends with a status that is
    not zero, whatever the rest of the command line is. *)
Theorem existing_directory_untouched argv service_name fs :
  argv !! 1%nat = Some service_name →
  Path_is_dir fs (service_dir service_name) = true →
  (run argv fs).1.2 = fs ∧ (run argv fs).1.1 ≠ 0.
Proof.
  intros A D. apply is_dir_exists in D.
  destruct (decide (length argv = 3%nat)) as [L|L].
  - destruct argv as [|a0 [|a1 [|a2 [|a3 argv]]]]; simplify_eq/=.
    by rewrite run_exists_status.
  - by rewrite run_wrong_argc.
Qed.

(** C3. When the port argument cannot be parsed as an integer the run
    leaves the file system as it was and ends with a status that is not
    zero; with exactly two arguments what it prints is the port error. *)
Theorem invalid_port argv port_arg fs :
  argv !! 2%nat = Some port_arg →
  int_of_str port_arg = None →
  (run argv fs).1.2 = fs ∧
  (run argv fs).1.1 ≠ 0 ∧
  (length argv = 3%nat → (run argv fs).2 = port_error_text).
Proof.
  intros A E. destruct (decide (length argv = 3%nat)) as [L|L].
  - destruct argv as [|a0 [|a1 [|a2 [|a3 argv]]]]; simplify_eq/=.
    by rewrite run_bad_port.
  - by rewrite run_wrong_argc.
Qed.

(** C4. An invocation whose number of positional arguments is not two
    prints the usage text, ends with status 1 (not zero) and leaves the
    file system alone; the outcome is the same whatever routine stands in
    the place of the scaffolding routine, which is therefore not called. *)
Theorem usage_error argv fs :
  length (tail argv) ≠ 2%nat →
  run argv fs = (1, fs, usage_text) ∧
  (run argv fs).1.1 ≠ 0 ∧
  ∀ scaffold w, main_with int_of_str scaffold argv w = main argv w.
Proof.
  intros L%tail_length. rewrite run_wrong_argc by done.
  split; [done|]. split; [done|].
  intros scaffold w. unfold main. by rewrite !main_wrong_argc.
Qed.

(** C5. After every call of [create_service] that returns, [package.json]
    holds valid JSON: it reads as the dictionary the script built, whose
    [name] is the service name followed by [-service]. *)
Theorem package_json_valid service_name port w :
  (create_service service_name port w).1 = inr tt →
  ∃ doc v,
    read_file (w_fs (create_service service_name port w).2)
              (service_dir service_name /: "package.json") = Some doc ∧
    json_loads doc = Some v ∧
    v = package_json service_name ∧
    json_get "name" v = Some (JStr (service_name +:+ "-service")).
Proof.
  destruct (create_service service_name port w) as [r w'] eqn:R. simpl.
  intros ->. apply create_service_success in R as (_ & _ & F).
  apply Forall_cons in F as [(c & [= <-] & R) _].
  eexists _, _. split; [exact R|]. split; [apply loads_package|]. done.
Qed.

(** C6. After every call of [create_service] that returns, one line of
    [.env] is [PORT=] followed by the decimal numeral of the port. *)
Theorem env_port_line service_name port w :
  (create_service service_name port w).1 = inr tt →
  ∃ env,
    read_file (w_fs (create_service service_name port w).2)
              (service_dir service_name /: ".env") = Some env ∧
    has_line ("PORT=" +:+ str_of_int port) env.
Proof.
  destruct (create_service service_name port w) as [r w'] eqn:R. simpl.
  intros ->. apply create_service_success in R as (_ & _ & F).
  apply Forall_cons in F as [_ F].
  apply Forall_cons in F as [(c & [= <-] & R) _].
  eexists. split; [exact R|]. apply env_has_port_line.
Qed.

(** C7 (amended). [create_service("order", 3003)] on a well-formed file
    system where no [services/order] is there, the path to it has no [..]
    and no regular file on its way, and the paths of the skeleton are
    within the limits of the operating system, returns and leaves the
    service directory with [src], [config], [models] and [scripts], a
    [package.json] whose [name] is [order-service], a [.env] with the
    line [PORT=3003] and a [README.md] in which [Port: 3003] occurs. *)
Theorem scaffold_order_3003 fs out :
  wf_fs fs → plain (service_dir "order") →
  paths_fit "order" →
  no_file_above fs (service_dir "order") →
  Path_exists fs (service_dir "order") = false →
  ∃ w',
    create_service "order" 3003 (World fs out) = (inr tt, w') ∧
    Forall (λ d, Path_is_dir (w_fs w') d = true)
      [ service_dir "order";
        service_dir "order" /: "src";
        service_dir "order" /: "config";
        service_dir "order" /: "models";
        service_dir "order" /: "scripts" ] ∧
    (∃ doc v,
       read_file (w_fs w') (service_dir "order" /: "package.json") = Some doc ∧
       json_loads doc = Some v ∧
       json_get "name" v = Some (JStr "order-service")) ∧
    (∃ env,
       read_file (w_fs w') (service_dir "order" /: ".env") = Some env ∧
       has_line "PORT=3003" env) ∧
    (∃ md,
       read_file (w_fs w') (service_dir "order" /: "README.md") = Some md ∧
       is_substring "Port: 3003" md = true).
Proof.
  intros W P _ NF Ex. eexists. split; [by apply create_service_ok|].
  pose proof (create_service_ok "order" 3003 fs out W P NF Ex) as Ok.
  apply create_service_success in Ok as (_ & D & F).
  split; [exact D|]. unfold scaffold_files in F.
  repeat match goal with
         | F : Forall _ (_ :: _) |- _ => apply Forall_cons in F as [(? & [= <-] & ?) F]
         end.
  split_and!.
  - eexists _, _. split; [done|]. split; [apply loads_package|]. reflexivity.
  - eexists. split; [done|]. apply (env_has_port_line "order" 3003).
  - eexists. split; [done|].
    unfold readme. cbn [unlines].
    apply is_substring_app. vm_compute. reflexivity.
Qed.


(** C9. The test before the first write is [exists()]: any entry at the
    destination, a regular file as much as a directory, makes the script
    report that the service exists and end with status 1, the file system
    unchanged. *)
Theorem existing_entry_rejected prog service_name port_arg port fs n :
  int_of_str port_arg = Some port →
  os_stat fs (service_dir service_name) = inr n →
  run [prog; service_name; port_arg] fs = (1, fs, exists_error_text service_name).
Proof.
  intros E S. apply (run_exists _ _ _ _ _ E). unfold Path_exists. by rewrite S.
Qed.

(** C10. On each of the three error paths (wrong number of arguments, a
    port that is no integer, a destination that exists) the exit status
    is exactly 1. *)
Theorem error_status_is_one argv fs :
  (length argv ≠ 3%nat ∨
   ∃ prog service_name port_arg,
     argv = [prog; service_name; port_arg] ∧
     (int_of_str port_arg = None ∨
      Path_exists fs (service_dir service_name) = true)) →
  (run argv fs).1.1 = 1.
Proof.
  intros [L|(prog & service_name & port_arg & -> & [E|E])].
  - by rewrite run_wrong_argc.
  - by rewrite run_bad_port.
  - by rewrite run_exists_status.
Qed.

End Scaffold.

(* ===================================================================== *)
(** * What a computation prints *)

Section Prints.

Implicit Types (fs : filesystem) (p d k cur : path) (l : string) (w : world).

Lemma prints_ret {A} (a : A) : prints (mret a : M A) [].
Proof. intros w. exists []. by rewrite app_nil_r. Qed.

Lemma prints_print s : prints (print s) [line s].
Proof. intros w. by exists [line s]. Qed.

Lemma prints_bind {A B} (m : M A) (f : A → M B) (xs ys : list string) :
  prints m xs → (∀ a, prints (f a) ys) → prints (m ≫= f) (xs ++ ys).
Proof.
  intros Hm Hf w. destruct (Hm w) as (ls1 & O1 & R1). unfold mbind, M_bind.
  destruct (m w) as [[e|a] w1]; simpl in *.
  - exists ls1. split; [done|]. by apply prefix_app_r.
  - subst ls1. destruct (Hf a w1) as (ls2 & O2 & R2).
    exists (xs ++ ls2). rewrite O2, O1, app_assoc. split; [done|].
    destruct (f a w1) as [[e|b] w2]; simpl in *; [|by subst].
    by apply prefix_app.
Qed.

Lemma prints_write_file p content : prints (write_file p content) [].
Proof.
  intros w. exists []. rewrite app_nil_r. unfold write_file, lift_os.
  destruct (os_write (w_fs w) p content); split; done || apply prefix_nil.
Qed.

Lemma prints_mkdir_rec n p parents exist_ok :
  prints (Path_mkdir_rec n p parents exist_ok) [].
Proof.
  assert (∀ (r : exn + ()) w, ∃ ls' : list string,
            w_out (r, w).2 = w_out w ++ ls' ∧
            match (r, w).1 with inr _ => ls' = [] | inl _ => ls' `prefix_of` [] end)
    as Same.
  { intros r w. exists []. rewrite app_nil_r. destruct r; split; done || apply prefix_nil. }
  revert p parents exist_ok.
  induction n as [|n IH]; intros p parents exist_ok w; rewrite Path_mkdir_rec_eq;
    destruct (os_mkdir (w_fs w) p) as [e|fs'] eqn:Mk;
    try (exists []; by rewrite app_nil_r).
  - destruct e;
      [destruct (negb parents || bool_decide (parent p = p))
      |destruct (negb exist_ok || negb (Path_is_dir (w_fs w) p))..]; apply Same.
  - destruct e;
      [|destruct (negb exist_ok || negb (Path_is_dir (w_fs w) p)); apply Same..].
    destruct (negb parents || bool_decide (parent p = p)); [apply Same|].
    apply (prints_bind _ _ [] []); [apply IH|intros []; apply IH].
Qed.

Lemma prints_mkdir p parents exist_ok : prints (Path_mkdir p parents exist_ok) [].
Proof. apply prints_mkdir_rec. Qed.

Lemma prints_eq {A} (m : M A) ls ls' : prints m ls → ls = ls' → prints m ls'.
Proof. by intros H <-. Qed.

End Prints.

(* ===================================================================== *)
(** * Regular files in the way *)

Section PathsWithFiles.

Implicit Types (fs : filesystem) (p d k cur : path) (l : string) (w : world).

Lemma ancestors_prefix cur p k :
  k ∈ ancestors cur p → ∃ p1 c p2, p = p1 ++ c :: p2 ∧ k = cur ++ p1 ++ [c].
Proof.
  revert cur. induction p as [|c p IH]; intros cur; simpl; [by intros ?%elem_of_nil|].
  intros [->|In]%elem_of_cons.
  - by exists [], c, p.
  - apply IH in In as (p1 & c' & p2 & -> & ->).
    exists (c :: p1), c', p2. by rewrite <- app_assoc.
Qed.

(** A walk down a path without [..] that ends went through
    directories only. *)
Lemma resolve_dir_plain_inv fs cur p d :
  plain p → resolve_dir fs cur p = inr d →
  d = cur ++ p ∧ ∀ k, k ∈ ancestors cur p → fs !! k = Some Dir.
Proof.
  intros P. revert cur. induction P as [|c p C P IH]; intros cur; simpl.
  - intros [= <-]. rewrite app_nil_r. split; [done|]. by intros k ?%elem_of_nil.
  - rewrite decide_False by done.
    destruct (fs !! (cur ++ [c])) as [[]|] eqn:E; [|done..].
    intros [-> A]%IH. rewrite <- app_assoc. split; [done|].
    intros k [->|In]%elem_of_cons; auto.
Qed.

Lemma is_dir_plain fs p :
  plain p → Path_is_dir fs p = true → ∀ k, k ∈ ancestors [] p → fs !! k = Some Dir.
Proof.
  intros P. unfold Path_is_dir, os_stat, lookup_path.
  destruct p as [|l d _] using rev_ind; [by intros _ k ?%elem_of_nil|].
  rewrite split_last_snoc.
  apply Forall_app in P as [Pd Pl]. rewrite Forall_singleton in Pl.
  destruct (resolve_dir fs [] d) as [e|d'] eqn:R; [done|].
  apply resolve_dir_plain_inv in R as [-> A]; [|done].
  rewrite decide_False by done. simpl.
  destruct (fs !! (d ++ [l])) as [[]|] eqn:E; [|done..]. intros _ k.
  rewrite ancestors_snoc. intros [In|In]%elem_of_app; [by apply A|].
  by apply list_elem_of_singleton in In as ->.
Qed.

(** A walk that meets a regular file stops there. *)
Lemma resolve_dir_file fs p1 c p2 x :
  plain p1 → c ≠ ".." → (∀ k, k ∈ ancestors [] p1 → fs !! k = Some Dir) →
  fs !! (p1 ++ [c]) = Some (File x) →
  resolve_dir fs [] (p1 ++ c :: p2) = inl ENOTDIR.
Proof.
  intros P C A E. rewrite resolve_dir_app, resolve_dir_ok by done. simpl.
  by rewrite decide_False, E.
Qed.

(** Where a regular file lies above [p], nothing is found at [p] and no
    directory can be made there. *)
Lemma file_above fs p :
  wf_fs fs → plain p → ¬ no_file_above fs p → Path_exists fs p = false →
  lookup_path fs p = inl ENOTDIR.
Proof.
  intros W P NF Ex. unfold no_file_above in NF.
  apply not_Forall_Exists in NF; [|apply _].
  apply Exists_exists in NF as (k & In & F). simpl in F.
  destruct (fs !! k) as [[|x]|] eqn:E; try done. clear F.
  pose proof (wf_ancestors _ _ _ W E) as A.
  apply ancestors_prefix in In as (p1 & c & p2 & -> & ->). simpl in *.
  rewrite parent_snoc in A.
  apply Forall_app in P as [P1 P2]. apply Forall_cons in P2 as [C P2].
  unfold Path_exists, os_stat, lookup_path in *.
  destruct p2 as [|l p2 _] using rev_ind.
  - rewrite split_last_snoc in *. rewrite resolve_dir_ok in Ex by done. simpl in Ex.
    by rewrite decide_False, E in Ex.
  - rewrite app_comm_cons, app_assoc, split_last_snoc.
    erewrite resolve_dir_file; eauto.
Qed.

Lemma mkdir_file_above fs out p n parents exist_ok :
  lookup_path fs p = inl ENOTDIR →
  Path_mkdir_rec n p parents exist_ok (World fs out)
  = (inl (OSError ENOTDIR), World fs out).
Proof.
  intros L. rewrite Path_mkdir_rec_eq. unfold os_mkdir, Path_is_dir, os_stat. simpl.
  rewrite L. by rewrite orb_true_r.
Qed.

(** Nothing is found at a path without [..] that the file system has no
    entry for. *)
Lemma absent_not_exists fs p :
  plain p → p ≠ [] → fs !! p = None → Path_exists fs p = false.
Proof.
  intros P N A. unfold Path_exists, os_stat, lookup_path.
  destruct p as [|l d _] using rev_ind; [done|]. rewrite split_last_snoc.
  apply Forall_app in P as [Pd Pl]. rewrite Forall_singleton in Pl.
  destruct (resolve_dir fs [] d) as [e|d'] eqn:R; [done|].
  apply resolve_dir_plain_inv in R as [-> _]; [|done]. simpl.
  by rewrite decide_False, A.
Qed.

End PathsWithFiles.

(* ===================================================================== *)
(** * The outcome of a run *)

Section Outcome.

Context (root : path) (int_of_str : string → option Z)
        (str_upper str_title : string → string).

Local Abbreviation service_dir := (service_dir root).
Local Abbreviation dirs := (dirs root).
Local Abbreviation create_service := (create_service root str_upper str_title).
Local Abbreviation main := (main root int_of_str str_upper str_title).
Local Abbreviation run := (run root int_of_str str_upper str_title).
Local Abbreviation scaffold_files := (scaffold_files root str_upper str_title).
Local Abbreviation skeleton := (skeleton root str_upper str_title).
Local Abbreviation success_output := (success_output root).
Local Abbreviation paths_fit := (paths_fit root).

(** [create_service] where a regular file lies above the service
    directory: the first [mkdir] raises. *)
Lemma create_service_file_above service_name port fs out :
  wf_fs fs → plain (service_dir service_name) →
  ¬ no_file_above fs (service_dir service_name) →
  Path_exists fs (service_dir service_name) = false →
  create_service service_name port (World fs out)
  = (inl (OSError ENOTDIR),
     World fs (out ++ [line ("Creating service: " +:+ service_name +:+ " on port "
                             +:+ str_of_int port)])).
Proof.
  intros W P NF Ex. unfold create_service. simpl w_fs. rewrite Ex.
  unfold dirs. cbn [for_each].
  unfold mbind, M_bind, print, Path_mkdir. cbn [w_fs w_out].
  by rewrite mkdir_file_above by by apply file_above.
Qed.

(** What [create_service] prints. *)
Lemma create_service_prints service_name port w :
  Path_exists (w_fs w) (service_dir service_name) = false →
  ∃ ls, w_out (create_service service_name port w).2 = w_out w ++ ls ∧
        match (create_service service_name port w).1 with
        | inr _ => ls = success_output service_name port
        | inl _ => ls `prefix_of` success_output service_name port
        end.
Proof.
  intros Ex. unfold create_service. rewrite Ex.
  lazymatch goal with
  | |- ∃ ls, w_out (?m w).2 = _ ∧ _ =>
      assert (prints m (success_output service_name port)) as K; [|exact (K w)]
  end.
  unfold success_output, dirs. cbn [for_each fmap list_fmap].
  eapply prints_eq.
  - repeat lazymatch goal with
    | |- prints (_ ≫= _) _ => eapply prints_bind; [|intros []]
    | |- prints (print _) _ => apply prints_print
    | |- prints (write_file _ _) _ => apply prints_write_file
    | |- prints (Path_mkdir _ _ _) _ => apply prints_mkdir
    | |- prints (mret _) _ => apply prints_ret
    end.
  - reflexivity.
Qed.

(** X1. Every run ends with status 0 or 1, and with 0 exactly when the
    command line has two arguments, the port parses, and [create_service]
    is called and returns. *)
Theorem exit_status_zero_or_one argv fs :
  ((run argv fs).1.1 = 0 ∨ (run argv fs).1.1 = 1) ∧
  ((run argv fs).1.1 = 0 ↔
   ∃ prog service_name port_arg port,
     argv = [prog; service_name; port_arg] ∧
     int_of_str port_arg = Some port ∧
     (create_service service_name port (World fs [])).1 = inr tt).
Proof.
  split; [apply run_status|]. split.
  - intros (prog & service_name & port_arg & port & w' & -> & E & R & _)%run_zero.
    exists prog, service_name, port_arg, port. by rewrite R.
  - intros (prog & service_name & port_arg & port & -> & E & R).
    unfold run, main, main_with. rewrite E.
    destruct (create_service service_name port (World fs [])) as [r w'].
    simpl in R. by subst r.
Qed.




End Outcome.

(* ===================================================================== *)
(** * What every step keeps *)

Section Keeps.

Implicit Types (fs : filesystem) (p d k cur : path) (l : string) (w : world).

Context (R : relation filesystem) `{!PreOrder R}.
Hypothesis R_mkdir : ∀ fs p fs', os_mkdir fs p = inr fs' → R fs fs'.
Hypothesis R_write : ∀ fs p content fs', os_write fs p content = inr fs' → R fs fs'.

Lemma keeps_ret {A} (a : A) : keeps R (mret a : M A).
Proof. intros w. done. Qed.

Lemma keeps_print s : keeps R (print s).
Proof. intros w. done. Qed.

Lemma keeps_bind {A B} (m : M A) (f : A → M B) :
  keeps R m → (∀ a, keeps R (f a)) → keeps R (m ≫= f).
Proof.
  intros Hm Hf w. specialize (Hm w). unfold mbind, M_bind.
  destruct (m w) as [[e|a] w1]; [done|].
  etrans; [exact Hm|]. apply Hf.
Qed.

Lemma keeps_for_each {A} (xs : list A) (body : A → M unit) :
  (∀ x, keeps R (body x)) → keeps R (for_each xs body).
Proof.
  intros H. induction xs as [|x xs IH]; simpl.
  - apply keeps_ret.
  - apply keeps_bind; [apply H|]. by intros [].
Qed.

Lemma keeps_write_file p content : keeps R (write_file p content).
Proof.
  intros w. unfold write_file, lift_os.
  destruct (os_write (w_fs w) p content) as [e|fs'] eqn:W; [done|].
  simpl. by eapply R_write.
Qed.

Lemma keeps_mkdir_rec n p parents exist_ok : keeps R (Path_mkdir_rec n p parents exist_ok).
Proof.
  revert p parents exist_ok.
  induction n as [|n IH]; intros p parents exist_ok w; rewrite Path_mkdir_rec_eq;
    destruct (os_mkdir (w_fs w) p) as [e|fs'] eqn:Mk;
    try (simpl; by eapply R_mkdir).
  - destruct e; repeat case_match; done.
  - destruct e; repeat case_match; try done.
    apply keeps_bind; [apply IH|]. intros []. apply IH.
Qed.

Lemma keeps_mkdir p parents exist_ok : keeps R (Path_mkdir p parents exist_ok).
Proof. apply keeps_mkdir_rec. Qed.

End Keeps.

Section KeptRelations.

Implicit Types (fs : filesystem) (p d k cur : path) (l : string) (w : world).

Global Instance kinds_kept_preorder : PreOrder kinds_kept.
Proof.
  split.
  - intros fs k n E. exists n. split; [done|]. by destruct n.
  - intros fs1 fs2 fs3 H1 H2 k n E.
    destruct (H1 _ _ E) as (n' & E' & S'). destruct (H2 _ _ E') as (n'' & E'' & S'').
    exists n''. split; [done|]. by destruct n, n', n''.
Qed.

Global Instance wf_kept_preorder : PreOrder wf_kept.
Proof. split; unfold wf_kept; [by intros ?|]. intros ???; tauto. Qed.

Lemma kinds_kept_insert fs k n :
  (∀ n0, fs !! k = Some n0 → same_kind n0 n = true) → kinds_kept fs (<[k := n]> fs).
Proof.
  intros H k' n' E. destruct (decide (k = k')) as [->|Ne].
  - rewrite lookup_insert_eq. eauto.
  - rewrite lookup_insert_ne by done. exists n'. split; [done|]. by destruct n'.
Qed.

Lemma kinds_kept_mkdir fs p fs' : os_mkdir fs p = inr fs' → kinds_kept fs fs'.
Proof.
  intros (-> & N & _)%os_mkdir_inv. apply kinds_kept_insert. intros n0. by rewrite N.
Qed.

Lemma kinds_kept_write fs p content fs' :
  os_write fs p content = inr fs' → kinds_kept fs fs'.
Proof.
  intros (-> & N & _)%os_write_inv. apply kinds_kept_insert. by intros [].
Qed.

(** A walk that begins in a directory of a well-formed file system ends
    in one. *)
Lemma resolve_dir_is_dir fs cur p d :
  wf_fs fs → cur = [] ∨ fs !! cur = Some Dir →
  resolve_dir fs cur p = inr d → d = [] ∨ fs !! d = Some Dir.
Proof.
  intros W. revert cur. induction p as [|c p IH]; intros cur C; simpl.
  - by intros [= <-].
  - case_decide.
    + apply IH. destruct C as [->|E]; [by left|].
      by destruct (W _ _ E) as [_ ?].
    + destruct (fs !! (cur ++ [c])) as [[]|] eqn:E; [|done..].
      apply IH. by right.
Qed.

Lemma wf_insert fs d l n :
  wf_fs fs → d = [] ∨ fs !! d = Some Dir →
  fs !! (d ++ [l]) ≠ Some Dir ∨ n = Dir →
  wf_fs (<[d ++ [l] := n]> fs).
Proof.
  intros W D N k x E.
  assert (dirs_kept fs (<[d ++ [l] := n]> fs)) as K.
  { destruct N as [N| ->]; [by apply dirs_kept_insert|apply dirs_kept_insert_dir]. }
  destruct (decide (k = d ++ [l])) as [->|Ne].
  - split; [by destruct d|]. rewrite parent_snoc.
    destruct D as [->|D]; [by left|]. right. by apply K.
  - rewrite lookup_insert_ne in E by done.
    destruct (W _ _ E) as [? [?|D']]; (split; [done|]); [by left|].
    right. by apply K.
Qed.

Lemma os_mkdir_wf fs p fs' : os_mkdir fs p = inr fs' → wf_kept fs fs'.
Proof.
  unfold os_mkdir, lookup_path. intros Mk W.
  destruct (split_last p) as [[d l]|]; [|done].
  destruct (resolve_dir fs [] d) as [e|d'] eqn:Rd; [done|].
  case_decide; [done|].
  destruct (fs !! (d' ++ [l])) eqn:E; [done|]. injection Mk as <-.
  apply wf_insert; [done| |by right].
  eapply resolve_dir_is_dir; [done| |done]. by left.
Qed.

Lemma os_write_wf fs p content fs' : os_write fs p content = inr fs' → wf_kept fs fs'.
Proof.
  unfold os_write, lookup_path. intros Wr W.
  destruct (split_last p) as [[d l]|]; [|done].
  destruct (resolve_dir fs [] d) as [e|d'] eqn:Rd; [done|].
  case_decide; [done|].
  assert (fs !! (d' ++ [l]) ≠ Some Dir ∧ fs' = <[d' ++ [l] := File content]> fs) as [N ->].
  { by destruct (fs !! (d' ++ [l])) as [[]|]; simplify_eq. }
  apply wf_insert; [done| |by left].
  eapply resolve_dir_is_dir; [done| |done]. by left.
Qed.

End KeptRelations.

Section Invariants.

Context (root : path) (int_of_str : string → option Z)
        (str_upper str_title : string → string).

Local Abbreviation service_dir := (service_dir root).
Local Abbreviation dirs := (dirs root).
Local Abbreviation create_service := (create_service root str_upper str_title).
Local Abbreviation main := (main root int_of_str str_upper str_title).
Local Abbreviation run := (run root int_of_str str_upper str_title).

Section KeepsScript.

Context (R : relation filesystem) `{!PreOrder R}.
Hypothesis R_mkdir : ∀ fs p fs', os_mkdir fs p = inr fs' → R fs fs'.
Hypothesis R_write : ∀ fs p content fs', os_write fs p content = inr fs' → R fs fs'.

Lemma keeps_create_service service_name port :
  keeps R (create_service service_name port).
Proof.
  intros w. unfold create_service.
  destruct (Path_exists (w_fs w) (service_dir service_name)); [done|].
  lazymatch goal with
  | |- R _ (w_fs (?m w).2) => assert (keeps R m) as K; [|exact (K w)]
  end.
  unfold dirs.
  repeat lazymatch goal with
  | |- keeps _ (_ ≫= _) => apply keeps_bind; [apply _| |intros []]
  | |- keeps _ (print _) => by apply keeps_print
  | |- keeps _ (write_file _ _) => by apply keeps_write_file
  | |- keeps _ (for_each _ _) => apply keeps_for_each; [apply _|intros ?]
  | |- keeps _ (Path_mkdir _ _ _) => by apply keeps_mkdir
  end.
Qed.

Lemma keeps_main argv : keeps R (main argv).
Proof.
  intros w. unfold main, main_with.
  repeat case_match; try done. apply keeps_create_service.
Qed.

Lemma run_keeps argv fs : R fs (run argv fs).1.2.
Proof.
  unfold run. pose proof (keeps_main argv (World fs [])) as K.
  by destruct (main argv (World fs [])).
Qed.

End KeepsScript.

(** X5. What a run never does: whatever the arguments and however the
    run ends, no entry of the file system goes away, no directory becomes
    a regular file and no regular file a directory. *)
Theorem run_keeps_kinds argv fs k n :
  fs !! k = Some n →
  ∃ n', (run argv fs).1.2 !! k = Some n' ∧ same_kind n n' = true.
Proof.
  apply (run_keeps kinds_kept); [apply kinds_kept_mkdir|apply kinds_kept_write].
Qed.

(** X6. A run leaves a well-formed file system well-formed, whatever the
    arguments and however it ends: every entry it makes lies in a
    directory. *)
Theorem run_keeps_wf argv fs : wf_fs fs → wf_fs (run argv fs).1.2.
Proof.
  apply (run_keeps wf_kept); [apply os_mkdir_wf|apply os_write_wf].
Qed.

End Invariants.

(* ===================================================================== *)
(** * Service names that are no plain component *)

Section FreePlaces.

Implicit Types (fs : filesystem) (p d k cur t : path) (l c : string) (w : world).

Lemma split_last_Some p d l : split_last p = Some (d, l) → p = d ++ [l].
Proof.
  unfold split_last. destruct (reverse p) as [|x r] eqn:E; [done|].
  intros [= <- <-]. apply (f_equal reverse) in E.
  by rewrite reverse_involutive, reverse_cons in E.
Qed.

(** A lookup that finds the place of the last component free. *)
Lemma lookup_path_free fs p t :
  lookup_path fs p = inr (t, None) →
  ∃ d l t', p = d ++ [l] ∧ l ≠ ".." ∧ resolve_dir fs [] d = inr t' ∧
            t = t' ++ [l] ∧ fs !! t = None.
Proof.
  unfold lookup_path. destruct (split_last p) as [[d l]|] eqn:S; [|done].
  apply split_last_Some in S as ->.
  destruct (resolve_dir fs [] d) as [e|t'] eqn:R; [done|].
  case_decide; [done|]. intros [= <- E]. by exists d, l, t'.
Qed.

Lemma resolve_insert_absent fs p t k n :
  fs !! k = None → resolve_dir fs [] p = inr t →
  resolve_dir (<[k := n]> fs) [] p = inr t.
Proof.
  intros A. apply resolve_dir_kept, dirs_kept_insert. by rewrite A.
Qed.

Lemma resolve_dir_step fs p t c :
  resolve_dir fs [] p = inr t → c ≠ ".." → fs !! (t ++ [c]) = Some Dir →
  resolve_dir fs [] (p ++ [c]) = inr (t ++ [c]).
Proof. intros R N E. rewrite resolve_dir_app, R. simpl. by rewrite decide_False, E. Qed.

Lemma os_mkdir_at fs p t c :
  resolve_dir fs [] p = inr t → c ≠ ".." → fs !! (t ++ [c]) = None →
  os_mkdir fs (p ++ [c]) = inr (<[t ++ [c] := Dir]> fs).
Proof.
  intros R N A. unfold os_mkdir, lookup_path.
  by rewrite split_last_snoc, R, decide_False, A.
Qed.

Lemma os_write_at fs p t c content :
  resolve_dir fs [] p = inr t → c ≠ ".." → fs !! (t ++ [c]) = None →
  os_write fs (p ++ [c]) content = inr (<[t ++ [c] := File content]> fs).
Proof.
  intros R N A. unfold os_write, lookup_path.
  by rewrite split_last_snoc, R, decide_False, A.
Qed.

Lemma Path_mkdir_free fs out p t n parents exist_ok :
  lookup_path fs p = inr (t, None) →
  Path_mkdir_rec n p parents exist_ok (World fs out)
  = (inr tt, World (<[t := Dir]> fs) out).
Proof.
  intros L. rewrite Path_mkdir_rec_eq. unfold os_mkdir. simpl. by rewrite L.
Qed.

Lemma Path_mkdir_at fs out p t c n parents exist_ok :
  resolve_dir fs [] p = inr t → c ≠ ".." → fs !! (t ++ [c]) = None →
  Path_mkdir_rec n (p ++ [c]) parents exist_ok (World fs out)
  = (inr tt, World (<[t ++ [c] := Dir]> fs) out).
Proof.
  intros R N A. rewrite Path_mkdir_rec_eq. simpl. by rewrite (os_mkdir_at _ _ t).
Qed.

End FreePlaces.

(** The side conditions of a step below the service directory, which
    resolves to [t]. *)
Ltac absent_at :=
  lazymatch goal with
  | A : ∀ r, r ≠ [] → _ !! (_ ++ r) = None |- _ =>
      rewrite ?lookup_insert_ne by below_neq; rewrite <- ?app_assoc;
      rewrite A by done; done
  end.
Ltac resolved_at :=
  lazymatch goal with
  | R : resolve_dir _ [] ?sd = inr ?t |- resolve_dir _ [] ?sd = inr _ =>
      repeat (apply resolve_insert_absent; [absent_at|]); exact R
  | |- resolve_dir _ [] (?sd ++ [_]) = inr _ =>
      apply resolve_dir_step; [resolved_at|done|];
      rewrite ?lookup_insert_ne by below_neq; apply lookup_insert_eq
  end.

Section ResolvedPlace.

Context (root : path) (int_of_str : string → option Z)
        (str_upper str_title : string → string).

Local Abbreviation service_dir := (service_dir root).
Local Abbreviation dirs := (dirs root).
Local Abbreviation create_service := (create_service root str_upper str_title).
Local Abbreviation main := (main root int_of_str str_upper str_title).
Local Abbreviation run := (run root int_of_str str_upper str_title).
Local Abbreviation skeleton_at := (skeleton_at str_upper str_title).
Local Abbreviation success_output := (success_output root).

(** [create_service] where the service path resolves to a free place. *)
Lemma create_service_at service_name port fs out t :
  wf_fs fs →
  lookup_path fs (service_dir service_name) = inr (t, None) →
  create_service service_name port (World fs out)
  = (inr tt, World (add_entries fs (skeleton_at t service_name port))
                   (out ++ success_output service_name port)).
Proof.
  intros W L.
  assert (Path_exists fs (service_dir service_name) = false) as Ex
    by (unfold Path_exists, os_stat; by rewrite L).
  destruct (lookup_path_free _ _ _ L) as (d & l & t' & S & N & R & -> & A0).
  unfold create_service. simpl w_fs. rewrite Ex.
  unfold skeleton_at, success_output, dirs.
  set (sd := service_dir service_name) in *. divide sd.
  set (t := t' ++ [l]) in *.
  set (fs1 := <[t := Dir]> fs).
  assert (resolve_dir fs1 [] sd = inr t) as R1.
  { rewrite S. apply resolve_dir_step; [|done|apply lookup_insert_eq].
    by apply resolve_insert_absent. }
  assert (∀ r, r ≠ [] → fs1 !! (t ++ r) = None) as A1.
  { intros r Nr. unfold fs1. rewrite lookup_insert_ne.
    - apply wf_absent_below; [done| |done]. unfold t. by destruct t'.
    - intros E. apply (f_equal length) in E. rewrite length_app in E.
      destruct r; [done|]. simpl in E. lia. }
  cbn [for_each fmap list_fmap].
  unfold mbind, M_bind, mret, M_ret, print, Path_mkdir, write_file, lift_os.
  cbn [w_fs w_out].
  rewrite (Path_mkdir_free _ _ _ t) by done. fold fs1.
  repeat (rewrite (Path_mkdir_at _ _ sd t); [cbn [w_fs w_out]|resolved_at|done|absent_at]).
  repeat (rewrite (os_write_at _ sd t); [cbn [w_fs w_out]|resolved_at|done|absent_at]).
  rewrite (os_write_at _ (sd ++ ["config"]) (t ++ ["config"]));
    [cbn [w_fs w_out]|resolved_at|done|absent_at].
  repeat (rewrite (os_write_at _ sd t); [cbn [w_fs w_out]|resolved_at|done|absent_at]).
  unfold add_entries. cbn [foldl fst snd].
  rewrite <- !app_assoc. reflexivity.
Qed.

End ResolvedPlace.

Section NameForms.

Implicit Types (a b c s t l : string).

Lemma split_slash_app a b :
  has_char "/" a = false → split_slash (a +:+ String "/" b) = a :: split_slash b.
Proof.
  induction a as [|x a IH]; [done|]. simpl.
  intros [C H]%orb_false_iff. apply bool_decide_eq_false in C.
  rewrite decide_False by done. by rewrite IH.
Qed.

Lemma is_absolute_component s t : is_component s → is_absolute (s +:+ t) = false.
Proof.
  intros (N0 & _ & _ & H). destruct s as [|x s]; [done|]. simpl in *.
  by apply orb_false_iff in H as [-> _].
Qed.

Lemma path_parts_component s : is_component s → path_parts s = [s].
Proof.
  intros (N0 & N1 & _ & H). unfold path_parts.
  rewrite split_slash_component by done.
  by rewrite filter_cons_True, filter_nil.
Qed.

Lemma path_parts_dotdot s : is_component s → path_parts ("../" +:+ s) = [".."; s].
Proof.
  intros (N0 & N1 & _ & H). unfold path_parts.
  change ("../" +:+ s) with (".." +:+ String "/" s).
  rewrite split_slash_app by done. rewrite split_slash_component by done.
  rewrite filter_cons_True by done.
  by rewrite filter_cons_True, filter_nil.
Qed.

Lemma path_parts_up s t :
  is_component s → is_component t → path_parts (s +:+ "/../" +:+ t) = [s; ".."; t].
Proof.
  intros (N0 & N1 & _ & H) (M0 & M1 & _ & G). unfold path_parts.
  change ("/../" +:+ t) with (String "/" (".." +:+ String "/" t)).
  rewrite split_slash_app by done. rewrite split_slash_app by done.
  rewrite split_slash_component by done.
  rewrite filter_cons_True by done. rewrite filter_cons_True by done.
  by rewrite filter_cons_True, filter_nil.
Qed.

End NameForms.

Section ServiceNames.

Context (root : path) (int_of_str : string → option Z)
        (str_upper str_title : string → string).

Local Abbreviation service_dir := (service_dir root).
Local Abbreviation dirs := (dirs root).
Local Abbreviation create_service := (create_service root str_upper str_title).
Local Abbreviation main := (main root int_of_str str_upper str_title).
Local Abbreviation run := (run root int_of_str str_upper str_title).
Local Abbreviation skeleton := (skeleton root str_upper str_title).
Local Abbreviation skeleton_at := (skeleton_at str_upper str_title).
Local Abbreviation success_output := (success_output root).
Local Abbreviation paths_fit := (paths_fit root).

Implicit Types (fs : filesystem) (service_name : string).

Lemma services_resolves fs :
  plain root → Path_is_dir fs (root ++ ["services"]) = true →
  resolve_dir fs [] (root ++ ["services"]) = inr (root ++ ["services"]).
Proof.
  intros P D. change (root ++ ["services"]) with ([] ++ root ++ ["services"]) at 2.
  assert (plain (root ++ ["services"])) as P'
    by (apply Forall_app; split; [done|by repeat constructor]).
  apply resolve_dir_ok; [done|]. by apply is_dir_plain.
Qed.




(** X10. The empty service name and [.] stand for the [services]
    directory itself.  Where it is there the run reports that the service
    exists; where it is not (and its path is without [..], with no
    regular file above it and within the limits of the operating system)
    the skeleton is made in [services] itself, with [package.json] at
    [services/package.json]. *)
Theorem empty_service_name prog service_name port_arg port fs :
  service_name = "" ∨ service_name = "." →
  int_of_str port_arg = Some port →
  service_dir service_name = root ++ ["services"] ∧
  (Path_exists fs (root ++ ["services"]) = true →
   run [prog; service_name; port_arg] fs = (1, fs, exists_error_text service_name)) ∧
  (wf_fs fs → plain root → paths_fit service_name →
   no_file_above fs (root ++ ["services"]) →
   Path_exists fs (root ++ ["services"]) = false →
   (run [prog; service_name; port_arg] fs).1.1 = 0 ∧
   read_file (run [prog; service_name; port_arg] fs).1.2
             (root ++ ["services"; "package.json"])
   = Some (json_dumps (package_json service_name))).
Proof.
  intros N E.
  assert (service_dir service_name = root ++ ["services"]) as S.
  { unfold service_dir, path_div at 1. destruct N as [-> | ->]; simpl.
    - unfold path_parts. simpl. rewrite filter_cons_False by (by intros [? _]).
      rewrite filter_nil. apply app_nil_r.
    - unfold path_parts. simpl. rewrite filter_cons_False by (by intros [_ ?]).
      rewrite filter_nil. apply app_nil_r. }
  split; [done|]. split.
  - intros Ex. apply (run_exists _ _ _ _ _ _ _ port); [done|]. by rewrite S.
  - intros W P _ NF Ex.
    assert (plain (service_dir service_name)) as P'.
    { rewrite S. apply Forall_app. split; [done|]. by repeat constructor. }
    rewrite <- S in NF, Ex.
    pose proof (create_service_ok root str_upper str_title service_name port fs []
                  W P' NF Ex) as Ok.
    unfold run, main, main_with. rewrite E, Ok. simpl. split; [done|].
    apply create_service_success in Ok as (_ & _ & F).
    apply Forall_cons in F as [(c & [= <-] & R) _]. simpl in R.
    rewrite S in R. change ((root ++ ["services"]) /: "package.json")
      with ((root ++ ["services"]) ++ ["package.json"]) in R.
    by rewrite <- app_assoc in R.
Qed.

End ServiceNames.

Lemma service_dir_absolute root service_name :
  is_absolute service_name = true →
  service_dir root service_name = path_parts service_name.
Proof. intros A. unfold service_dir, path_div at 1. by rewrite A. Qed.

(** X11. An absolute service name replaces the services root: the
    service directory is the name itself, and the run does not depend on
    where the script lies. *)
Theorem absolute_service_name
    root root' int_of_str str_upper str_title argv service_name fs :
  argv !! 1%nat = Some service_name →
  is_absolute service_name = true →
  service_dir root service_name = path_parts service_name ∧
  run root int_of_str str_upper str_title argv fs
  = run root' int_of_str str_upper str_title argv fs.
Proof.
  intros A Abs. split; [by apply service_dir_absolute|].
  unfold run, main, main_with.
  destruct argv as [|a0 [|a1 [|a2 [|a3 argv]]]]; simplify_eq/=; try done.
  destruct (int_of_str a2) as [port|]; [|done].
  unfold create_service, success_output, dirs.
  by rewrite !(service_dir_absolute root), !(service_dir_absolute root').
Qed.

(* ===================================================================== *)
(** * One service after another *)

Section TwoServices.

Context (root : path) (int_of_str : string → option Z)
        (str_upper str_title : string → string).

Local Abbreviation service_dir := (service_dir root).
Local Abbreviation dirs := (dirs root).
Local Abbreviation create_service := (create_service root str_upper str_title).
Local Abbreviation main := (main root int_of_str str_upper str_title).
Local Abbreviation run := (run root int_of_str str_upper str_title).
Local Abbreviation skeleton := (skeleton root str_upper str_title).
Local Abbreviation success_output := (success_output root).

Implicit Types (fs : filesystem) (a b : string) (k : path).

(** The places of the skeleton of one service and the service directory
    of another. *)
Lemma skeleton_key_cases a port k :
  is_component a → k ∈ (skeleton a port).*1 →
  (k ∈ ancestors [] (service_dir a) ∧ (k, Dir) ∈ skeleton a port) ∨
  (∃ r, r ≠ [] ∧ k = service_dir a ++ r).
Proof.
  intros C. rewrite skeleton_keys. intros [In|In]%elem_of_app.
  - left. split; [done|]. unfold skeleton, scaffold_dirs, dir_entries.
    rewrite !elem_of_app. left. left. apply list_elem_of_fmap. by exists k.
  - right. apply list_elem_of_fmap in In as (r & -> & In). exists r. split; [|done].
    intros ->. revert In. by apply (bool_decide_unpack _).
Qed.

Lemma ancestors_service_dir a k :
  is_component a → k ∈ ancestors [] (service_dir a) →
  (length k ≤ length root + 2)%nat ∧
  (length k = (length root + 2)%nat → k = service_dir a).
Proof.
  intros C In. rewrite service_dir_component in * by done.
  split.
  - apply ancestors_length in In. rewrite length_app in In. simpl in In. lia.
  - apply ancestors_prefix in In as (p1 & c & p2 & E & ->). simpl. intros L.
    rewrite length_app in L. simpl in L.
    apply (f_equal length) in E as E'. rewrite !length_app in E'. simpl in E'.
    destruct p2; [|simpl in E'; lia].
    by rewrite E.
Qed.

Lemma service_dir_inj a b :
  is_component a → is_component b → service_dir a = service_dir b → a = b.
Proof.
  intros Ca Cb. rewrite !service_dir_component by done.
  by intros [= ->]%app_inv_head.
Qed.

Lemma service_dir_below a b r :
  is_component a → is_component b → a ≠ b → service_dir a ++ r ≠ service_dir b.
Proof.
  intros Ca Cb N E. apply (f_equal length) in E as L.
  rewrite !service_dir_component, !length_app in L by done. simpl in L.
  destruct r; [|simpl in L; lia]. rewrite app_nil_r in E.
  by apply service_dir_inj in E.
Qed.

(** After one service is made, nothing is in the way of another one. *)
Lemma other_service_free a b pa fs :
  is_component a → is_component b → a ≠ b → plain root → wf_fs fs →
  no_file_above fs (service_dir a) → Path_exists fs (service_dir a) = false →
  no_file_above fs (service_dir b) → Path_exists fs (service_dir b) = false →
  let fs' := add_entries fs (skeleton a pa) in
  wf_fs fs' ∧ no_file_above fs' (service_dir b) ∧
  Path_exists fs' (service_dir b) = false.
Proof.
  intros Ca Cb N P W NFa Exa NFb Exb fs'.
  pose proof (service_dir_plain root a P Ca) as Pa.
  pose proof (service_dir_plain root b P Cb) as Pb.
  destruct (not_exists_absent _ _ W Pb NFb Exb) as [Nb Ab].
  split_and!.
  - pose proof (create_service_ok root str_upper str_title a pa fs [] W Pa NFa Exa)
      as Ok.
    pose proof (keeps_create_service root str_upper str_title wf_kept
                  os_mkdir_wf os_write_wf a pa (World fs [])) as K.
    rewrite Ok in K. by apply K.
  - unfold no_file_above. apply Forall_forall. intros k In.
    destruct (decide (k ∈ (skeleton a pa).*1)) as [Ik|Nk].
    + destruct (skeleton_key_cases _ _ _ Ca Ik) as [[_ Ik']|(r & Nr & ->)].
      * unfold fs'. by rewrite (lookup_add_entries_in _ _ _ Dir)
          by (done || apply skeleton_NoDup).
      * exfalso. apply ancestors_service_dir in In as [L _]; [|done].
        rewrite length_app, service_dir_component, length_app in L by done.
        destruct r; [done|]. simpl in L. lia.
    + unfold fs'. rewrite lookup_add_entries_notin by done.
      unfold no_file_above in NFb. rewrite Forall_forall in NFb. by apply NFb.
  - apply absent_not_exists; [done..|].
    unfold fs'. rewrite lookup_add_entries_notin; [done|].
    intros Ik. destruct (skeleton_key_cases _ _ _ Ca Ik) as [[In _]|(r & Nr & E)];
      [|by apply (service_dir_below a b r Ca Cb N)].
    apply ancestors_service_dir in In as [_ L]; [|done].
    apply (service_dir_inj b a) in L; [congruence|done..|].
    by rewrite !service_dir_component, !length_app by done.
Qed.

(** Two skeletons put into a file system one after the other, in either
    order. *)
Lemma skeletons_commute a b pa pb fs :
  is_component a → is_component b → a ≠ b →
  add_entries (add_entries fs (skeleton a pa)) (skeleton b pb)
  = add_entries (add_entries fs (skeleton b pb)) (skeleton a pa).
Proof.
  intros Ca Cb N. apply map_eq. intros k.
  pose proof (skeleton_NoDup root str_upper str_title a pa) as NDa.
  pose proof (skeleton_NoDup root str_upper str_title b pb) as NDb.
  destruct (decide (k ∈ (skeleton a pa).*1)) as [Ia|Na];
    destruct (decide (k ∈ (skeleton b pb).*1)) as [Ib|Nb].
  - destruct (skeleton_key_cases _ _ _ Ca Ia) as [[Aa Da]|(r & Nr & ->)];
      destruct (skeleton_key_cases _ _ _ Cb Ib) as [[Ab Db]|(r' & Nr' & E)].
    + by rewrite !(lookup_add_entries_in _ _ _ Dir).
    + exfalso. subst k. apply ancestors_service_dir in Aa as [L _]; [|done].
      rewrite length_app, service_dir_component, length_app in L by done.
      destruct r'; [done|]. simpl in L. lia.
    + exfalso. apply ancestors_service_dir in Ab as [L _]; [|done].
      rewrite length_app, service_dir_component, length_app in L by done.
      destruct r; [done|]. simpl in L. lia.
    + exfalso. rewrite !service_dir_component in E by done.
      rewrite <- !app_assoc in E. apply app_inv_head in E. simpl in E. congruence.
  - apply list_elem_of_fmap in Ia as ([k' n] & -> & In). simpl in *.
    rewrite lookup_add_entries_notin by done.
    by rewrite !(lookup_add_entries_in _ _ _ n).
  - apply list_elem_of_fmap in Ib as ([k' n] & -> & In). simpl in *.
    rewrite (lookup_add_entries_notin _ (skeleton a pa)) by done.
    by rewrite !(lookup_add_entries_in _ _ _ n).
  - by rewrite !lookup_add_entries_notin.
Qed.


End TwoServices.

(* ===================================================================== *)
(** * The text of the files *)

Section Texts.

Implicit Types (a b s t l : string).

Lemma all_chars_app P a b : all_chars P (a +:+ b) = all_chars P a && all_chars P b.
Proof.
  induction a as [|x a IH]; [done|]. rewrite str_app_cons. simpl.
  by rewrite IH, andb_assoc.
Qed.

Lemma all_chars_impl (P Q : ascii → bool) s :
  (∀ c, P c = true → Q c = true) → all_chars P s = true → all_chars Q s = true.
Proof.
  intros H. induction s as [|x s IH]; [done|]. simpl.
  intros [Px Ps]%andb_true_iff. by rewrite (H _ Px), IH.
Qed.

Lemma escape_char_printable c : all_chars is_printable (escape_char c) = true.
Proof. destruct c as [[] [] [] [] [] [] [] []]; reflexivity. Qed.

Lemma escape_printable s : all_chars is_printable (escape s) = true.
Proof.
  induction s as [|c s IH]; [done|]. simpl.
  by rewrite all_chars_app, escape_char_printable, IH.
Qed.

Lemma encode_str_printable s : all_chars is_printable (encode_str s) = true.
Proof.
  unfold encode_str. simpl. by rewrite all_chars_app, escape_printable.
Qed.

(** The lines of a text made of lines without line feed. *)
Lemma lines_unlines ls :
  Forall (λ l, has_char LF l = false) ls → lines (unlines ls) = ls.
Proof.
  induction 1 as [|l ls H _ IH]; [done|]. simpl.
  by rewrite lines_cons, IH.
Qed.

Lemma is_prefix_app a b : is_prefix a (a +:+ b) = true.
Proof.
  induction a as [|x a IH]; [done|]. rewrite str_app_cons. cbn [is_prefix].
  by case_decide.
Qed.

Lemma is_substring_prefix a b : is_substring a (a +:+ b) = true.
Proof.
  pose proof (is_prefix_app a b) as H.
  destruct (a +:+ b); simpl; by rewrite H.
Qed.

(** A line of a text occurs in it. *)
Lemma is_substring_unlines l ls : l ∈ ls → is_substring l (unlines ls) = true.
Proof.
  induction ls as [|x ls IH]; [by intros ?%elem_of_nil|]. simpl.
  intros [<-|In]%elem_of_cons; [apply is_substring_prefix|].
  apply is_substring_app. simpl. rewrite IH by done. apply orb_true_r.
Qed.

End Texts.

Section Imports.

Implicit Types (fs : filesystem) (p t : path) (c f : string).

(** What a regular file and a directory found at [p/c] say of the walk
    to [p]. *)
Lemma read_file_inv fs p c content :
  c ≠ ".." → read_file fs (p ++ [c]) = Some content →
  ∃ t, resolve_dir fs [] p = inr t ∧ fs !! (t ++ [c]) = Some (File content).
Proof.
  intros N. unfold read_file, os_stat, lookup_path. rewrite split_last_snoc.
  destruct (resolve_dir fs [] p) as [e|t]; [done|]. rewrite decide_False by done.
  destruct (fs !! (t ++ [c])) as [[|x]|] eqn:E; try done.
  intros [= ->]. by exists t.
Qed.

Lemma is_dir_inv fs p c :
  c ≠ ".." → Path_is_dir fs (p ++ [c]) = true →
  ∃ t, resolve_dir fs [] p = inr t ∧ fs !! (t ++ [c]) = Some Dir.
Proof.
  intros N. unfold Path_is_dir, os_stat, lookup_path. rewrite split_last_snoc.
  destruct (resolve_dir fs [] p) as [e|t]; [done|]. rewrite decide_False by done.
  destruct (fs !! (t ++ [c])) as [[|x]|] eqn:E; try done.
  intros _. by exists t.
Qed.

(** A file beside a directory, read by way of the directory and [..]. *)
Lemma read_file_up fs p c f content :
  c ≠ ".." → f ≠ ".." →
  Path_is_dir fs (p ++ [c]) = true →
  read_file fs (p ++ [f]) = Some content →
  read_file fs (p ++ [c; ".."; f]) = Some content.
Proof.
  intros Nc Nf (t & R & D)%is_dir_inv (t' & R' & F)%read_file_inv; try done.
  rewrite R in R'. injection R' as <-.
  unfold read_file, os_stat, lookup_path.
  change [c; ".."; f] with ([c; ".."] ++ [f]). rewrite app_assoc, split_last_snoc.
  rewrite resolve_dir_app, R. simpl. rewrite decide_False, D by done. simpl.
  by rewrite parent_snoc, decide_False, F.
Qed.

End Imports.

(** A line that is one of the lines of a template. *)
Ltac in_lines :=
  repeat first [apply list_elem_of_here | apply list_elem_of_further].

Section Files.

Context (root : path) (int_of_str : string → option Z)
        (str_upper str_title : string → string).

Local Abbreviation service_dir := (service_dir root).
Local Abbreviation dirs := (dirs root).
Local Abbreviation create_service := (create_service root str_upper str_title).
Local Abbreviation main := (main root int_of_str str_upper str_title).
Local Abbreviation run := (run root int_of_str str_upper str_title).
Local Abbreviation scaffold_files := (scaffold_files root str_upper str_title).
Local Abbreviation env_content := (env_content str_upper str_title).
Local Abbreviation readme := (readme str_title).

Implicit Types (fs : filesystem) (service_name : string).

(** The files a call that returned has written, read back. *)
Lemma create_service_files service_name port w :
  (create_service service_name port w).1 = inr tt →
  let fs' := w_fs (create_service service_name port w).2 in
  let sd := service_dir service_name in
  read_file fs' (sd /: "package.json") = Some (json_dumps (package_json service_name)) ∧
  read_file fs' (sd /: ".env") = Some (env_content service_name port) ∧
  read_file fs' (sd /: "index.js") = Some (index_js port) ∧
  read_file fs' (sd /: "config" /: "express.config.js") = Some express_config ∧
  read_file fs' (sd /: "index.route.js") = Some index_route ∧
  read_file fs' (sd /: "README.md") = Some (readme service_name port).
Proof.
  destruct (create_service service_name port w) as [r w'] eqn:R. simpl.
  intros ->. apply create_service_success in R as (_ & _ & F).
  unfold scaffold_files in F.
  repeat match goal with
         | F : Forall _ (_ :: _) |- _ => apply Forall_cons in F as [(? & [= <-] & ?) F]
         end.
  done.
Qed.

(** X13. After every call that returns, [index.js] has the line that
    takes the port from the environment and falls back to the port
    given; its text depends on the port only, not on the service name. *)
Theorem index_js_port_fallback service_name port w :
  (create_service service_name port w).1 = inr tt →
  ∃ js,
    read_file (w_fs (create_service service_name port w).2)
              (service_dir service_name /: "index.js") = Some js ∧
    has_line ("const PORT = process.env.PORT || " +:+ str_of_int port +:+ ";") js ∧
    ∀ other_name w',
      (create_service other_name port w').1 = inr tt →
      read_file (w_fs (create_service other_name port w').2)
                (service_dir other_name /: "index.js") = Some js.
Proof.
  intros R. destruct (create_service_files _ _ _ R) as (_ & _ & F & _).
  eexists. split; [exact F|]. split.
  - apply has_line_unlines.
    + in_lines.
    + rewrite !has_char_app, str_of_int_no_LF. reflexivity.
  - intros other w' R'. by destruct (create_service_files _ _ _ R') as (_ & _ & F' & _).
Qed.

(** X14. After every call that returns, [README.md] has the line
    [Port: <port>] and the [curl] line of the health check with the port,
    and the two [pnpm --filter <name>-service] commands occur in it. *)
Theorem readme_port_and_commands service_name port w :
  (create_service service_name port w).1 = inr tt →
  ∃ md,
    read_file (w_fs (create_service service_name port w).2)
              (service_dir service_name /: "README.md") = Some md ∧
    has_line ("Port: " +:+ str_of_int port) md ∧
    has_line ("curl http://localhost:" +:+ str_of_int port +:+ "/api/health") md ∧
    is_substring ("pnpm --filter " +:+ service_name +:+ "-service start") md = true ∧
    is_substring ("pnpm --filter " +:+ service_name +:+ "-service dev") md = true.
Proof.
  intros R. destruct (create_service_files _ _ _ R) as (_ & _ & _ & _ & _ & F).
  eexists. split; [exact F|]. split_and!.
  - apply has_line_unlines.
    + in_lines.
    + rewrite !has_char_app, str_of_int_no_LF. reflexivity.
  - apply has_line_unlines.
    + in_lines.
    + rewrite !has_char_app, str_of_int_no_LF. reflexivity.
  - apply is_substring_unlines. in_lines.
  - apply is_substring_unlines. in_lines.
Qed.

(** X15. Where the upper-cased and the title-cased service name hold no
    line feed, the [.env] of a call that returned has seven lines and one
    setting, [PORT=<port>]; its other lines are comments or empty. *)
Theorem env_one_setting service_name port w :
  has_char LF (str_upper service_name) = false →
  has_char LF (str_title service_name) = false →
  (create_service service_name port w).1 = inr tt →
  ∃ env,
    read_file (w_fs (create_service service_name port w).2)
              (service_dir service_name /: ".env") = Some env ∧
    length (lines env) = 7%nat ∧
    settings env = ["PORT=" +:+ str_of_int port].
Proof.
  intros U T R. destruct (create_service_files _ _ _ R) as (_ & F & _).
  eexists. split; [exact F|].
  assert (lines (env_content service_name port)
          = [ "# ";
              "# " +:+ str_upper service_name +:+ " SERVICE - Specific Configuration";
              "# Loaded after root .env (can override common variables if needed)";
              "# ";
              "";
              "# Server Port (" +:+ str_title service_name +:+ " Service)";
              "PORT=" +:+ str_of_int port ]) as L.
  { apply lines_unlines. repeat constructor;
      rewrite ?has_char_app, ?U, ?T, ?str_of_int_no_LF; reflexivity. }
  unfold settings. rewrite L. split; [done|].
  repeat (rewrite filter_cons_False by (intros [? ?]; done)).
  rewrite filter_cons_True by done. by rewrite filter_nil.
Qed.

(** X16. The [package.json] of a call that returned holds printable
    ASCII characters and line feeds only, whatever the characters of the
    service name: [json.dump] escapes the others. *)
Theorem package_json_ascii service_name port w :
  (create_service service_name port w).1 = inr tt →
  ∃ doc,
    read_file (w_fs (create_service service_name port w).2)
              (service_dir service_name /: "package.json") = Some doc ∧
    all_chars (λ c, is_printable c || bool_decide (c = LF)) doc = true.
Proof.
  intros R. destruct (create_service_files _ _ _ R) as (F & _).
  eexists. split; [exact F|].
  rewrite dumps_shape, !all_chars_app. apply andb_true_iff. split; [reflexivity|].
  apply andb_true_iff. split; [|reflexivity].
  eapply all_chars_impl; [|apply encode_str_printable].
  by intros c ->.
Qed.

(** X17. The files import one another by relative paths, and these
    paths lead to the files written: [index.js] imports
    [./config/express.config.js], and [config/express.config.js] imports
    [../index.route.js], which read from the [config] directory is the
    [index.route.js] of the service directory. *)
Theorem imports_resolve service_name port w :
  (create_service service_name port w).1 = inr tt →
  let fs' := w_fs (create_service service_name port w).2 in
  let sd := service_dir service_name in
  (∃ js, read_file fs' (sd /: "index.js") = Some js ∧
         has_line ("import createApp from " +:+ q "./config/express.config.js" +:+ ";") js ∧
         read_file fs' (sd /: "./config/express.config.js") = Some express_config) ∧
  (∃ cfg, read_file fs' (sd /: "config" /: "express.config.js") = Some cfg ∧
          has_line ("import routes from " +:+ q "../index.route.js" +:+ ";") cfg ∧
          read_file fs' (sd /: "config" /: "../index.route.js") = Some index_route).
Proof.
  intros R fs' sd.
  destruct (create_service_files _ _ _ R)
    as (_ & _ & Fjs & Fcfg & Frt & _).
  destruct (create_service service_name port w) as [r w'] eqn:Rw. simpl in R. subst r.
  apply create_service_success in Rw as (_ & D & _).
  unfold dirs in D.
  apply Forall_cons in D as [_ D]. apply Forall_cons in D as [_ D].
  apply Forall_cons in D as [D _].
  fold sd in Fjs, Fcfg, Frt, D. simpl in fs'. fold fs' in Fjs, Fcfg, Frt.
  simpl in Fjs, Fcfg, Frt.
  split.
  - eexists. split; [exact Fjs|]. split.
    + apply has_line_unlines; [|reflexivity]. in_lines.
    + change (sd /: "./config/express.config.js")
        with (sd ++ ["config"; "express.config.js"]).
      change (sd /: "config" /: "express.config.js")
        with ((sd ++ ["config"]) ++ ["express.config.js"]) in Fcfg.
      by rewrite <- app_assoc in Fcfg.
  - eexists. split; [exact Fcfg|]. split.
    + apply has_line_unlines; [|reflexivity]. in_lines.
    + change (sd /: "config" /: "../index.route.js")
        with ((sd ++ ["config"]) ++ [".."; "index.route.js"]).
      rewrite <- app_assoc. apply read_file_up; done.
Qed.

End Files.

(* ===================================================================== *)
(** * [json.dump] and back *)

Section JsonRoundTrip.

#[local] Arguments read_value : simpl never.
#[local] Arguments read_members : simpl never.
#[local] Arguments read_elements : simpl never.
#[local] Arguments String.append !_ _ : simpl nomatch.
#[local] Arguments newline_indent : simpl never.

Implicit Types (v x : json) (s r rest : string).

(** Induction over objects, with the property at hand for the elements
    of a list and the values of a dictionary. *)
Lemma json_nested_ind (P : json → Prop) :
  P JNull → (∀ b, P (JBool b)) → (∀ lit, P (JNum lit)) → (∀ s, P (JStr s)) →
  (∀ items, Forall P items → P (JList items)) →
  (∀ items, Forall (λ kv, P kv.2) items → P (JDict items)) →
  ∀ v, P v.
Proof.
  intros HN HB HU HS HL HD.
  fix IH 1. intros [| | | |items|items]; [done..| |].
  - apply HL. induction items as [|x items IHi]; constructor; [apply IH|done].
  - apply HD. induction items as [|[k x] items IHi]; constructor; [apply IH|done].
Qed.

Lemma str_app_nil_r s : s +:+ "" = s.
Proof. induction s as [|c s IH]; [done|]. by rewrite str_app_cons, IH. Qed.

Lemma skip_ws_indent level s : skip_ws (indent level +:+ s) = skip_ws s.
Proof. induction level as [|level IH]; [done|]. simpl. exact IH. Qed.

Lemma skip_ws_newline_indent level s : skip_ws (newline_indent level +:+ s) = skip_ws s.
Proof. unfold newline_indent. rewrite str_app_cons. simpl. apply skip_ws_indent. Qed.

Lemma read_value_newline_indent n level s :
  read_value n (newline_indent level +:+ s) = read_value n s.
Proof.
  destruct n; [done|]. rewrite !read_value_S. unfold value_step.
  by rewrite skip_ws_newline_indent.
Qed.

Lemma read_value_space n s : read_value n (String " " s) = read_value n s.
Proof. destruct n; [done|]. rewrite !read_value_S. unfold value_step. done. Qed.

Lemma read_elements_S n s :
  read_elements (S n) s = elements_step (read_value n) (read_elements n) s.
Proof. reflexivity. Qed.

(** What the text of an object without numbers begins with. *)
Lemma encode_first level v rest :
  no_numbers v = true →
  ∃ c t, json_encode level v +:+ rest = String c t ∧
         is_json_ws c = false ∧ c ≠ "]"%char ∧ c ≠ "}"%char.
Proof.
  destruct v as [|[]| |s|[|x items]|[|kv items]]; try done; intros _;
    eexists _, _; (split; [reflexivity|done]).
Qed.

Lemma value_step_list m e r :
  (∀ t, skip_ws r ≠ String "]" t) →
  value_step m e (String "[" r) = '(xs, r') ← e r; Some (JList xs, r').
Proof.
  intros H. unfold value_step. simpl.
  destruct (skip_ws r) as [|c t]; [done|].
  destruct c as [[] [] [] [] [] [] [] []]; try done. by destruct (H t).
Qed.

Lemma value_step_dict m e r :
  (∀ t, skip_ws r ≠ String "}" t) →
  value_step m e (String "{" r) = '(ms, r') ← m r; Some (JDict ms, r').
Proof.
  intros H. unfold value_step. simpl.
  destruct (skip_ws r) as [|c t]; [done|].
  destruct c as [[] [] [] [] [] [] [] []]; try done. by destruct (H t).
Qed.

Lemma elements_text_cons level x y items :
  elements_text level (x :: y :: items)
  = json_encode level x +:+ ("," +:+ newline_indent level)
    +:+ elements_text level (y :: items).
Proof. reflexivity. Qed.

Lemma members_text_cons level k x kv items :
  members_text level ((k, x) :: kv :: items)
  = (encode_str k +:+ ": " +:+ json_encode level x)
    +:+ ("," +:+ newline_indent level) +:+ members_text level (kv :: items).
Proof. reflexivity. Qed.

Lemma elements_step_more (v : string → option (json * string)) e s x r2 :
  v s = Some (x, String "," r2) →
  elements_step v e s = '(xs, r3) ← e r2; Some (x :: xs, r3).
Proof. intros E. unfold elements_step. rewrite E. done. Qed.

Lemma elements_step_last (v : string → option (json * string)) e s x r1 r2 :
  v s = Some (x, r1) → skip_ws r1 = String "]" r2 →
  elements_step v e s = Some ([x], r2).
Proof. intros E S. unfold elements_step. rewrite E. simpl. by rewrite S. Qed.

Lemma members_step_more (v : string → option (json * string)) m s r k x r2 r4 :
  skip_ws s = String dquote r → read_chars r = Some (k, String ":" r2) →
  v r2 = Some (x, String "," r4) →
  members_step v m s = '(ms, r5) ← m r4; Some ((k, x) :: ms, r5).
Proof.
  intros S K E. unfold members_step. rewrite S. simpl. rewrite K. simpl.
  rewrite E. done.
Qed.

Lemma members_step_last (v : string → option (json * string)) m s r k x r2 r3 r4 :
  skip_ws s = String dquote r → read_chars r = Some (k, String ":" r2) →
  v r2 = Some (x, r3) → skip_ws r3 = String "}" r4 →
  members_step v m s = Some ([(k, x)], r4).
Proof.
  intros S K E S'. unfold members_step. rewrite S. simpl. rewrite K. simpl.
  rewrite E. simpl. by rewrite S'.
Qed.

Lemma read_elements_text items :
  Forall reads_back items → forallb no_numbers items = true → items ≠ [] →
  ∀ n level rest, (list_sum (map (λ x, S (weight x)) items) ≤ n)%nat →
    read_elements n (newline_indent (S level) +:+ elements_text (S level) items
                     +:+ newline_indent level +:+ String "]" rest)
    = Some (items, rest).
Proof.
  induction 1 as [|x items Hx _ IH]; [done|]. intros N _ n level rest Ln.
  simpl in N. apply andb_true_iff in N as [Nx N].
  simpl in Ln. destruct n as [|n]; [lia|].
  rewrite read_elements_S.
  destruct items as [|y items].
  - apply (elements_step_last _ _ _ _ (newline_indent level +:+ String "]" rest)).
    + rewrite read_value_newline_indent. apply (Hx Nx). lia.
    + apply skip_ws_newline_indent.
  - rewrite elements_text_cons, !str_app_assoc.
    erewrite elements_step_more.
    2:{ rewrite read_value_newline_indent. apply (Hx Nx). lia. }
    rewrite IH; [done..|]. lia.
Qed.

Lemma read_members_text items :
  Forall (λ kv, reads_back kv.2) items →
  forallb (λ kv, match kv with (_, x) => no_numbers x end) items = true →
  items ≠ [] →
  ∀ n level rest,
    (list_sum (map (λ kv, match kv with (_, x) => S (weight x) end) items) ≤ n)%nat →
    read_members n (newline_indent (S level) +:+ members_text (S level) items
                    +:+ newline_indent level +:+ String "}" rest)
    = Some (items, rest).
Proof.
  induction 1 as [|[k x] items Hx _ IH]; [done|]. intros N _ n level rest Ln.
  simpl in N. apply andb_true_iff in N as [Nx N].
  simpl in Ln, Hx. destruct n as [|n]; [lia|].
  rewrite read_members_S.
  destruct items as [|kv items].
  - unfold members_text. cbn [map str_join]. rewrite !str_app_assoc.
    rewrite encode_str_app.
    eapply members_step_last.
    + rewrite skip_ws_newline_indent. reflexivity.
    + apply read_chars_escape.
    + rewrite read_value_space. apply (Hx Nx). lia.
    + apply skip_ws_newline_indent.
  - rewrite members_text_cons, !str_app_assoc. rewrite encode_str_app.
    erewrite members_step_more.
    2:{ rewrite skip_ws_newline_indent. reflexivity. }
    2:{ apply read_chars_escape. }
    2:{ rewrite read_value_space. apply (Hx Nx). lia. }
    rewrite IH; [done..|]. lia.
Qed.

(** Every object without numbers reads back. *)
Lemma read_encode v : reads_back v.
Proof.
  induction v as [|b|lit|s|items IH|items IH] using json_nested_ind;
    intros N n level rest Ln; try done;
    (destruct n as [|n]; [simpl in Ln; lia|]); rewrite read_value_S.
  - reflexivity.
  - by destruct b.
  - change (json_encode level (JStr s)) with (encode_str s).
    rewrite encode_str_app. unfold value_step. simpl.
    by rewrite read_chars_escape.
  - destruct items as [|x items]; [reflexivity|].
    change (json_encode level (JList (x :: items)) +:+ rest)
      with (String "[" ((newline_indent (S level)
                         +:+ elements_text (S level) (x :: items)
                         +:+ newline_indent level +:+ "]") +:+ rest)).
    rewrite !str_app_assoc. change ("]" +:+ rest) with (String "]" rest).
    rewrite value_step_list.
    + rewrite read_elements_text; [done..|]. simpl in Ln. simpl. lia.
    + intros t. rewrite skip_ws_newline_indent.
      simpl in N. apply andb_true_iff in N as [Nx _].
      destruct items as [|y items].
      * unfold elements_text. cbn [map str_join].
        match goal with
        | |- skip_ws (json_encode _ _ +:+ ?z) ≠ _ =>
            destruct (encode_first (S level) x z Nx) as (c & t' & -> & Ws & Nc & _)
        end.
        simpl. rewrite Ws. congruence.
      * rewrite elements_text_cons, !str_app_assoc.
        match goal with
        | |- skip_ws (json_encode _ _ +:+ ?z) ≠ _ =>
            destruct (encode_first (S level) x z Nx) as (c & t' & -> & Ws & Nc & _)
        end.
        simpl. rewrite Ws. congruence.
  - destruct items as [|[k x] items]; [reflexivity|].
    change (json_encode level (JDict ((k, x) :: items)) +:+ rest)
      with (String "{" ((newline_indent (S level)
                         +:+ members_text (S level) ((k, x) :: items)
                         +:+ newline_indent level +:+ "}") +:+ rest)).
    rewrite !str_app_assoc. change ("}" +:+ rest) with (String "}" rest).
    rewrite value_step_dict.
    + rewrite read_members_text; [done..|]. simpl in Ln. simpl. lia.
    + intros t. rewrite skip_ws_newline_indent.
      destruct items as [|kv items].
      * unfold members_text. cbn [map str_join]. rewrite !str_app_assoc.
        rewrite encode_str_app. done.
      * rewrite members_text_cons, !str_app_assoc. rewrite encode_str_app. done.
Qed.

Lemma elements_weight level items :
  Forall short_weight items → forallb no_numbers items = true →
  (list_sum (map (λ x, S (weight x)) items)
   ≤ S (String.length (elements_text level items)))%nat.
Proof.
  induction 1 as [|y items Hy _ IH]; [simpl; lia|].
  intros [Ny N]%andb_true_iff. specialize (Hy level Ny). specialize (IH N).
  destruct items as [|z items]; [unfold elements_text; simpl in *; lia|].
  rewrite elements_text_cons, !str_length_app.
  unfold newline_indent. simpl in *. lia.
Qed.

Lemma members_weight level items :
  Forall (λ kv, short_weight kv.2) items →
  forallb (λ kv, match kv with (_, x) => no_numbers x end) items = true →
  (list_sum (map (λ kv, match kv with (_, x) => S (weight x) end) items)
   ≤ S (String.length (members_text level items)))%nat.
Proof.
  induction 1 as [|[k y] items Hy _ IH]; [simpl; lia|].
  intros [Ny N]%andb_true_iff. specialize (Hy level Ny). specialize (IH N).
  destruct items as [|z items].
  - unfold members_text. cbn [map str_join]. rewrite !str_length_app. simpl in *. lia.
  - rewrite members_text_cons, !str_length_app.
    unfold newline_indent. simpl in *. lia.
Qed.

Lemma weight_le_length v : short_weight v.
Proof.
  induction v as [|b|lit|s|items IH|items IH] using json_nested_ind;
    intros level N; try done.
  - simpl. lia.
  - destruct b; simpl; lia.
  - simpl. lia.
  - pose proof (elements_weight (S level) items IH N) as L.
    destruct items as [|x items]; [simpl; lia|].
    change (json_encode level (JList (x :: items)))
      with ("[" +:+ newline_indent (S level) +:+ elements_text (S level) (x :: items)
            +:+ newline_indent level +:+ "]").
    rewrite !str_length_app. unfold newline_indent.
    cbn [String.length weight]. lia.
  - pose proof (members_weight (S level) items IH N) as L.
    destruct items as [|[k x] items]; [simpl; lia|].
    change (json_encode level (JDict ((k, x) :: items)))
      with ("{" +:+ newline_indent (S level) +:+ members_text (S level) ((k, x) :: items)
            +:+ newline_indent level +:+ "}").
    rewrite !str_length_app. unfold newline_indent.
    cbn [String.length weight]. lia.
Qed.

(** X18. [json.dump(obj, f, indent=2)] and reading back: the text of
    every object without numbers is valid JSON and denotes the object. *)
Theorem json_round_trip v :
  no_numbers v = true → json_loads (json_dumps v) = Some v.
Proof.
  intros N. unfold json_loads, json_dumps.
  pose proof (read_encode v N (String.length (json_encode 0 v)) 0%nat ""
                (weight_le_length v 0%nat N)) as R.
  rewrite str_app_nil_r in R. by rewrite R.
Qed.

End JsonRoundTrip.

(* ===================================================================== *)
(** * [int] and [str] *)

Section Numerals.

Implicit Types (a b s t l : string).

Lemma all_chars_rev_app P a b :
  all_chars P (String.rev_app a b) = all_chars P a && all_chars P b.
Proof.
  revert b. induction a as [|x a IH]; intros b; [done|]. simpl.
  rewrite IH. simpl. by destruct (P x), (all_chars P a).
Qed.

Lemma rev_app_rev_app a b t :
  String.rev_app (String.rev_app a b) t = String.rev_app b (a +:+ t).
Proof. revert b t. induction a as [|x a IH]; intros b t; [done|]. simpl. by rewrite IH. Qed.

Lemma lstrip_id s : all_chars (λ c, negb (is_space c)) s = true → lstrip s = s.
Proof.
  destruct s as [|x s]; [done|]. simpl. intros [X _]%andb_true_iff.
  by apply negb_true_iff in X as ->.
Qed.

(** Text without white space is stripped to itself. *)
Lemma strip_id s : all_chars (λ c, negb (is_space c)) s = true → strip s = s.
Proof.
  intros H. unfold strip, String.rev. rewrite (lstrip_id s) by done.
  rewrite lstrip_id by (by rewrite all_chars_rev_app, H).
  rewrite rev_app_rev_app. simpl. clear H.
  induction s as [|x s IH]; [done|]. rewrite str_app_cons. by rewrite IH.
Qed.

Lemma uint_no_space d :
  all_chars (λ c, negb (is_space c)) (NilEmpty.string_of_uint d) = true.
Proof. induction d; simpl; done. Qed.

(** Reading the digits of a numeral after an accumulated value. *)
Lemma int_digits_uint d acc :
  int_digits (Z.pos acc) true (NilEmpty.string_of_uint d)
  = Some (Z.pos (Pos.of_uint_acc d acc)).
Proof.
  revert acc. induction d as [|d IH|d IH|d IH|d IH|d IH|d IH|d IH|d IH|d IH|d IH];
    intros acc; [done|..]; simpl;
    match goal with
    | |- int_digits ?z _ _ = Some (Z.pos (Pos.of_uint_acc _ ?a)) =>
        replace z with (Z.pos a) by lia
    end; apply IH.
Qed.

Lemma int_digits_uint_zero d :
  int_digits 0 true (NilEmpty.string_of_uint d) = Some (Z.of_N (Pos.of_uint d)).
Proof.
  induction d as [|d IH|d IH|d IH|d IH|d IH|d IH|d IH|d IH|d IH|d IH];
    [done|exact IH|..]; simpl; apply int_digits_uint.
Qed.

Lemma int_unsigned_uint d :
  d ≠ Decimal.Nil →
  int_unsigned (NilEmpty.string_of_uint d) = Some (Z.of_N (Pos.of_uint d)).
Proof.
  destruct d; [done|..]; intros _; simpl;
    [apply int_digits_uint_zero|apply int_digits_uint..].
Qed.

Lemma int_unsigned_pos p :
  int_unsigned (NilEmpty.string_of_uint (Pos.to_uint p)) = Some (Z.pos p).
Proof.
  rewrite int_unsigned_uint.
  - by rewrite DecimalPos.Unsigned.of_to.
  - apply Unsigned.to_uint_nonnil.
Qed.

Lemma string_of_uint_pos p :
  NilZero.string_of_uint (Pos.to_uint p) = NilEmpty.string_of_uint (Pos.to_uint p).
Proof.
  unfold NilZero.string_of_uint.
  pose proof (Unsigned.to_uint_nonnil p). by destruct (Pos.to_uint p).
Qed.

Lemma uint_first_digit d x s :
  NilEmpty.string_of_uint d = String x s → x ≠ "-"%char ∧ x ≠ "+"%char.
Proof. destruct d; simpl; intros [= <- _]; done. Qed.

(** [int(str(n)) == n]. *)
Lemma int_of_str_of_int n : int_latin1 (str_of_int n) = Some n.
Proof.
  unfold int_latin1, str_of_int. destruct n as [|p|p]; simpl.
  - reflexivity.
  - rewrite string_of_uint_pos, strip_id by apply uint_no_space.
    pose proof (int_unsigned_pos p) as I.
    destruct (NilEmpty.string_of_uint (Pos.to_uint p)) as [|x s] eqn:E; [done|].
    apply uint_first_digit in E as [N1 N2].
    destruct x as [[] [] [] [] [] [] [] []]; done.
  - rewrite string_of_uint_pos.
    rewrite strip_id by (simpl; apply uint_no_space).
    by rewrite int_unsigned_pos.
Qed.

(** ** White space around a numeral *)

Implicit Types (ws : string).

Lemma lstrip_spaces ws s : all_chars is_space ws = true → lstrip (ws +:+ s) = lstrip s.
Proof.
  induction ws as [|x ws IH]; [done|]. simpl.
  intros [X H]%andb_true_iff. rewrite X. by apply IH.
Qed.

Lemma lstrip_all_spaces ws : all_chars is_space ws = true → lstrip ws = "".
Proof.
  induction ws as [|x ws IH]; [done|]. simpl.
  intros [X H]%andb_true_iff. rewrite X. by apply IH.
Qed.

(** White space after a text stays when the text is stripped on the
    left, unless the text is white space only. *)
Lemma lstrip_app s ws :
  all_chars is_space ws = true →
  lstrip (s +:+ ws) = lstrip s +:+ ws ∨ (lstrip s = "" ∧ lstrip (s +:+ ws) = "").
Proof.
  intros H. induction s as [|x s IH].
  - right. split; [done|]. by apply lstrip_all_spaces.
  - rewrite str_app_cons. simpl. destruct (is_space x); [exact IH|]. by left.
Qed.

Lemma rev_app_acc s t : String.rev_app s t = String.rev s +:+ t.
Proof.
  unfold String.rev. revert t. induction s as [|x s IH]; intros t; [done|]. simpl.
  rewrite (IH (String x "")), IH. by rewrite str_app_assoc.
Qed.

Lemma rev_app s t : String.rev (s +:+ t) = String.rev t +:+ String.rev s.
Proof.
  unfold String.rev at 1 3. generalize "". induction s as [|x s IH]; intros acc.
  - simpl. apply rev_app_acc.
  - rewrite str_app_cons. simpl. apply IH.
Qed.

(** [strip] takes the white space around a text away. *)
Lemma strip_around ws1 s ws2 :
  all_chars is_space ws1 = true → all_chars is_space ws2 = true →
  strip (ws1 +:+ s +:+ ws2) = strip s.
Proof.
  intros H1 H2. unfold strip. rewrite lstrip_spaces by done.
  destruct (lstrip_app s ws2 H2) as [-> | [-> ->]]; [|done].
  rewrite rev_app, lstrip_spaces; [done|].
  unfold String.rev. by rewrite all_chars_rev_app, H2.
Qed.

Lemma int_around ws1 s ws2 :
  all_chars is_space ws1 = true → all_chars is_space ws2 = true →
  int_latin1 (ws1 +:+ s +:+ ws2) = int_latin1 s.
Proof. intros H1 H2. unfold int_latin1. by rewrite strip_around. Qed.

End Numerals.

Section Ports.

Context (root : path).


(** X20. White space around the port argument is ignored, as [int]
    ignores it: the run is the same with it and without it. *)
Theorem port_white_space prog service_name ws1 port_arg ws2 fs :
  all_chars is_space ws1 = true → all_chars is_space ws2 = true →
  run root int_latin1 upper_ascii title_ascii
      [prog; service_name; ws1 +:+ port_arg +:+ ws2] fs
  = run root int_latin1 upper_ascii title_ascii [prog; service_name; port_arg] fs.
Proof.
  intros H1 H2. unfold run, main, main_with. by rewrite int_around.
Qed.

End Ports.

(* ===================================================================== *)
(** * [mkdir] of what is there already *)

Section MkdirExistOk.

Implicit Types (fs : filesystem) (p : path).

Lemma mkdir_on_dir fs out p n parents :
  Path_is_dir fs p = true →
  Path_mkdir_rec n p parents true (World fs out) = (inr tt, World fs out).
Proof.
  intros D. rewrite Path_mkdir_rec_eq. simpl.
  unfold os_mkdir. unfold Path_is_dir, os_stat in *.
  by destruct (lookup_path fs p) as [e|[k [[|c]|]]].
Qed.

Lemma mkdir_on_file fs out p n parents exist_ok c :
  os_stat fs p = inr (File c) →
  Path_mkdir_rec n p parents exist_ok (World fs out)
  = (inl (OSError EEXIST), World fs out).
Proof.
  intros S. rewrite Path_mkdir_rec_eq. simpl.
  unfold os_mkdir. unfold Path_is_dir, os_stat in *.
  destruct (lookup_path fs p) as [e|[k [[|c']|]]]; try done.
  by rewrite orb_true_r.
Qed.


End MkdirExistOk.

(* ===================================================================== *)
(** * The script run in the workspace [fs_repo] *)


(** C7 for every start without a [services/order] entry does not hold.
    Where [services] is a regular file nothing is at [services/order],
    yet [create_service("order", 3003)] raises at the first [mkdir],
    after its first line, and makes no service directory. *)
Lemma scaffold_order_below_file :
  fs_services_file !! ["repo"; "services"; "order"] = None ∧
  Path_exists fs_services_file (service_dir repo "order") = false ∧
  create_service repo upper_ascii title_ascii "order" 3003 (World fs_services_file [])
  = (inl (OSError ENOTDIR),
     World fs_services_file [line "Creating service: order on port 3003"]) ∧
  Path_is_dir fs_services_file (service_dir repo "order") = false.
Proof.
  split_and!.
  - vm_compute. reflexivity.
  - vm_compute. reflexivity.
  - apply (create_service_file_above repo upper_ascii title_ascii "order" 3003
             fs_services_file []);
      first [vm_compute; reflexivity
            | apply (bool_decide_unpack _); vm_compute; exact I].
  - vm_compute. reflexivity.
Qed.



(** [existing_directory_untouched] where [services/order] is a directory. *)
Lemma existing_directory_untouched_order :
  (argv_order !! 1%nat = Some "order" ∧
   Path_is_dir fs_order_dir (service_dir repo "order") = true) ∧
  (run_repo argv_order fs_order_dir).1.2 = fs_order_dir ∧
  (run_repo argv_order fs_order_dir).1.1 ≠ 0.
Proof.
  split; [split; vm_compute; reflexivity|].
  apply (existing_directory_untouched repo int_latin1 upper_ascii title_ascii
           argv_order "order" fs_order_dir); vm_compute; reflexivity.
Defined.

(** [invalid_port] for the port argument [30o3]. *)
Lemma invalid_port_order :
  (["scripts/create-service.py"; "order"; "30o3"] !! 2%nat = Some "30o3" ∧
   int_latin1 "30o3" = None) ∧
  (run_repo ["scripts/create-service.py"; "order"; "30o3"] fs_repo).1.2 = fs_repo ∧
  (run_repo ["scripts/create-service.py"; "order"; "30o3"] fs_repo).1.1 ≠ 0 ∧
  (run_repo ["scripts/create-service.py"; "order"; "30o3"] fs_repo).2 = port_error_text.
Proof.
  split; [split; vm_compute; reflexivity|].
  destruct (invalid_port repo int_latin1 upper_ascii title_ascii
              ["scripts/create-service.py"; "order"; "30o3"] "30o3" fs_repo)
    as (F & S & O); [vm_compute; reflexivity..|].
  split; [exact F|]. split; [exact S|]. apply O. reflexivity.
Defined.

(** [usage_error] for a command line without the port. *)
Lemma usage_error_order :
  length (tail ["scripts/create-service.py"; "order"]) ≠ 2%nat ∧
  run_repo ["scripts/create-service.py"; "order"] fs_repo = (1, fs_repo, usage_text).
Proof.
  split; [simpl; lia|].
  apply (usage_error repo int_latin1 upper_ascii title_ascii
           ["scripts/create-service.py"; "order"] fs_repo). simpl. lia.
Defined.

(** [package_json_valid] and [env_port_line] after
    [create_service("order", 3003)]. *)
Lemma package_json_valid_order :
  let r := create_service repo upper_ascii title_ascii "order" 3003 (World fs_repo []) in
  r.1 = inr tt ∧
  ∃ doc v,
    read_file (w_fs r.2) (service_dir repo "order" /: "package.json") = Some doc ∧
    json_loads doc = Some v ∧
    v = package_json "order" ∧
    json_get "name" v = Some (JStr "order-service").
Proof.
  intros r. split; [vm_compute; reflexivity|].
  apply (package_json_valid repo upper_ascii title_ascii "order" 3003
           (World fs_repo [])).
  vm_compute. reflexivity.
Defined.

Lemma env_port_line_order :
  let r := create_service repo upper_ascii title_ascii "order" 3003 (World fs_repo []) in
  r.1 = inr tt ∧
  ∃ env,
    read_file (w_fs r.2) (service_dir repo "order" /: ".env") = Some env ∧
    has_line "PORT=3003" env.
Proof.
  intros r. split; [vm_compute; reflexivity|].
  apply (env_port_line repo upper_ascii title_ascii "order" 3003
           (World fs_repo [])).
  vm_compute. reflexivity.
Defined.

(** [scaffold_order_3003] in the workspace. *)
Lemma scaffold_order_3003_repo :
  (wf_fs fs_repo ∧
   plain (service_dir repo "order") ∧
   paths_fit repo "order" ∧
   no_file_above fs_repo (service_dir repo "order") ∧
   Path_exists fs_repo (service_dir repo "order") = false) ∧
  ∃ w',
    create_service repo upper_ascii title_ascii "order" 3003 (World fs_repo [])
      = (inr tt, w') ∧
    Forall (λ d, Path_is_dir (w_fs w') d = true)
      [ service_dir repo "order";
        service_dir repo "order" /: "src";
        service_dir repo "order" /: "config";
        service_dir repo "order" /: "models";
        service_dir repo "order" /: "scripts" ] ∧
    (∃ doc v,
       read_file (w_fs w') (service_dir repo "order" /: "package.json") = Some doc ∧
       json_loads doc = Some v ∧
       json_get "name" v = Some (JStr "order-service")) ∧
    (∃ env,
       read_file (w_fs w') (service_dir repo "order" /: ".env") = Some env ∧
       has_line "PORT=3003" env) ∧
    (∃ md,
       read_file (w_fs w') (service_dir repo "order" /: "README.md") = Some md ∧
       is_substring "Port: 3003" md = true).
Proof.
  assert (wf_fs fs_repo) as W by (apply (bool_decide_unpack _); vm_compute; exact I).
  assert (plain (service_dir repo "order")) as P
    by (apply (bool_decide_unpack _); vm_compute; exact I).
  assert (no_file_above fs_repo (service_dir repo "order")) as NF
    by (apply (bool_decide_unpack _); vm_compute; exact I).
  assert (paths_fit repo "order") as Fit
    by (apply (bool_decide_unpack _); vm_compute; exact I).
  split; [split_and!; first [assumption | vm_compute; reflexivity]|].
  apply (scaffold_order_3003 repo upper_ascii title_ascii fs_repo []);
    first [assumption | vm_compute; reflexivity].
Defined.


(** [existing_entry_rejected] where [services/order] is a regular file. *)
Lemma existing_entry_rejected_file :
  (int_latin1 "3003" = Some 3003 ∧
   os_stat fs_order_file (service_dir repo "order") = inr (File "notes")) ∧
  run_repo argv_order fs_order_file = (1, fs_order_file, exists_error_text "order").
Proof.
  split; [split; vm_compute; reflexivity|].
  apply (existing_entry_rejected repo int_latin1 upper_ascii title_ascii
           "scripts/create-service.py" "order" "3003" 3003 fs_order_file (File "notes"));
    vm_compute; reflexivity.
Defined.

(** [error_status_is_one] on each of the three error paths. *)
Lemma error_status_is_one_order :
  (run_repo ["scripts/create-service.py"; "order"] fs_repo).1.1 = 1 ∧
  (run_repo ["scripts/create-service.py"; "order"; "30o3"] fs_repo).1.1 = 1 ∧
  (run_repo argv_order fs_order_file).1.1 = 1.
Proof.
  split_and!;
    apply (error_status_is_one repo int_latin1 upper_ascii title_ascii).
  - left. simpl. lia.
  - right. eexists _, _, _. split; [reflexivity|]. left. vm_compute. reflexivity.
  - right. eexists _, _, _. split; [reflexivity|]. right. vm_compute. reflexivity.
Defined.

(** ** More runs *)



(** [run_keeps_kinds]: the script file is a regular file after the
    run as before. *)
Lemma run_keeps_kinds_script :
  fs_repo !! ["repo"; "scripts"; "create-service.py"]
  = Some (File "#!/usr/bin/env python3") ∧
  ∃ n', (run_repo argv_order fs_repo).1.2 !! ["repo"; "scripts"; "create-service.py"]
        = Some n' ∧
        same_kind (File "#!/usr/bin/env python3") n' = true.
Proof.
  assert (fs_repo !! ["repo"; "scripts"; "create-service.py"]
          = Some (File "#!/usr/bin/env python3")) as E by (vm_compute; reflexivity).
  split; [exact E|].
  exact (run_keeps_kinds repo int_latin1 upper_ascii title_ascii argv_order fs_repo
           ["repo"; "scripts"; "create-service.py"] (File "#!/usr/bin/env python3") E).
Defined.

(** [run_keeps_wf] in the workspace. *)
Lemma run_keeps_wf_order :
  wf_fs fs_repo ∧ wf_fs (run_repo argv_order fs_repo).1.2.
Proof.
  assert (wf_fs fs_repo) as W by (apply (bool_decide_unpack _); vm_compute; exact I).
  split; [exact W|].
  exact (run_keeps_wf repo int_latin1 upper_ascii title_ascii argv_order fs_repo W).
Defined.




(** [empty_service_name] for the empty name: in the workspace, where
    [services] is there and the run reports that the service exists, and
    in the workspace without [services], where the run makes the
    skeleton in [services] itself. *)
Lemma empty_service_name_repo :
  (("" = "" ∨ "" = ".") ∧ int_latin1 "3003" = Some 3003) ∧
  service_dir repo "" = repo ++ ["services"] ∧
  (Path_exists fs_repo (repo ++ ["services"]) = true ∧
   run_repo argv_empty fs_repo = (1, fs_repo, exists_error_text "")) ∧
  ((wf_fs fs_no_services ∧ plain repo ∧ paths_fit repo "" ∧
    no_file_above fs_no_services (repo ++ ["services"]) ∧
    Path_exists fs_no_services (repo ++ ["services"]) = false) ∧
   (run_repo argv_empty fs_no_services).1.1 = 0 ∧
   read_file (run_repo argv_empty fs_no_services).1.2
             (repo ++ ["services"; "package.json"])
   = Some (json_dumps (package_json ""))).
Proof.
  assert (int_latin1 "3003" = Some 3003) as E by (vm_compute; reflexivity).
  assert (Path_exists fs_repo (repo ++ ["services"]) = true) as Ex
    by (vm_compute; reflexivity).
  assert (wf_fs fs_no_services) as W
    by (apply (bool_decide_unpack _); vm_compute; exact I).
  assert (plain repo) as P by (apply (bool_decide_unpack _); vm_compute; exact I).
  assert (paths_fit repo "") as Fit
    by (apply (bool_decide_unpack _); vm_compute; exact I).
  assert (no_file_above fs_no_services (repo ++ ["services"])) as NF
    by (apply (bool_decide_unpack _); vm_compute; exact I).
  assert (Path_exists fs_no_services (repo ++ ["services"]) = false) as Nx
    by (vm_compute; reflexivity).
  split; [split; [by left|exact E]|].
  destruct (empty_service_name repo int_latin1 upper_ascii title_ascii
              "scripts/create-service.py" "" "3003" 3003 fs_repo (or_introl eq_refl) E)
    as (S & There & _).
  destruct (empty_service_name repo int_latin1 upper_ascii title_ascii
              "scripts/create-service.py" "" "3003" 3003 fs_no_services
              (or_introl eq_refl) E)
    as (_ & _ & Free).
  split; [exact S|]. split; [split; [exact Ex|exact (There Ex)]|].
  split; [by split_and!|]. exact (Free W P Fit NF Nx).
Defined.

(** [absolute_service_name]: the script in [/repo] and in [/elsewhere]. *)
Lemma absolute_service_name_srv :
  (argv_absolute !! 1%nat = Some "/srv/order" ∧ is_absolute "/srv/order" = true) ∧
  service_dir repo "/srv/order" = path_parts "/srv/order" ∧
  run repo int_latin1 upper_ascii title_ascii argv_absolute fs_repo
  = run ["elsewhere"] int_latin1 upper_ascii title_ascii argv_absolute fs_repo.
Proof.
  split; [by split|].
  exact (absolute_service_name repo ["elsewhere"] int_latin1 upper_ascii title_ascii
           argv_absolute "/srv/order" fs_repo eq_refl eq_refl).
Defined.


(** [index_js_port_fallback] at [scaffold("order", 3003)]. *)
Lemma index_js_port_fallback_order :
  (create_service repo upper_ascii title_ascii "order" 3003 (World fs_repo [])).1
  = inr tt ∧
  ∃ js,
    read_file
      (w_fs (create_service repo upper_ascii title_ascii "order" 3003
               (World fs_repo [])).2)
      (service_dir repo "order" /: "index.js") = Some js ∧
    has_line ("const PORT = process.env.PORT || " +:+ str_of_int 3003 +:+ ";") js ∧
    ∀ other_name w',
      (create_service repo upper_ascii title_ascii other_name 3003 w').1 = inr tt →
      read_file
        (w_fs (create_service repo upper_ascii title_ascii other_name 3003 w').2)
        (service_dir repo other_name /: "index.js") = Some js.
Proof.
  assert ((create_service repo upper_ascii title_ascii "order" 3003
             (World fs_repo [])).1 = inr tt) as R by (vm_compute; reflexivity).
  split; [exact R|].
  exact (index_js_port_fallback repo upper_ascii title_ascii "order" 3003
           (World fs_repo []) R).
Defined.

(** [readme_port_and_commands] at [scaffold("order", 3003)]. *)
Lemma readme_port_and_commands_order :
  (create_service repo upper_ascii title_ascii "order" 3003 (World fs_repo [])).1
  = inr tt ∧
  ∃ md,
    read_file
      (w_fs (create_service repo upper_ascii title_ascii "order" 3003
               (World fs_repo [])).2)
      (service_dir repo "order" /: "README.md") = Some md ∧
    has_line ("Port: " +:+ str_of_int 3003) md ∧
    has_line ("curl http://localhost:" +:+ str_of_int 3003 +:+ "/api/health") md ∧
    is_substring ("pnpm --filter " +:+ "order" +:+ "-service start") md = true ∧
    is_substring ("pnpm --filter " +:+ "order" +:+ "-service dev") md = true.
Proof.
  assert ((create_service repo upper_ascii title_ascii "order" 3003
             (World fs_repo [])).1 = inr tt) as R by (vm_compute; reflexivity).
  split; [exact R|].
  exact (readme_port_and_commands repo upper_ascii title_ascii "order" 3003
           (World fs_repo []) R).
Defined.

(** [env_one_setting] at [scaffold("order", 3003)]. *)
Lemma env_one_setting_order :
  (has_char LF (upper_ascii "order") = false ∧
   has_char LF (title_ascii "order") = false ∧
   (create_service repo upper_ascii title_ascii "order" 3003 (World fs_repo [])).1
   = inr tt) ∧
  ∃ env,
    read_file
      (w_fs (create_service repo upper_ascii title_ascii "order" 3003
               (World fs_repo [])).2)
      (service_dir repo "order" /: ".env") = Some env ∧
    length (lines env) = 7%nat ∧
    settings env = ["PORT=" +:+ str_of_int 3003].
Proof.
  assert ((create_service repo upper_ascii title_ascii "order" 3003
             (World fs_repo [])).1 = inr tt) as R by (vm_compute; reflexivity).
  split; [split_and!; first [assumption | vm_compute; reflexivity]|].
  exact (env_one_setting repo upper_ascii title_ascii "order" 3003
           (World fs_repo []) eq_refl eq_refl R).
Defined.

(** [package_json_ascii] at [scaffold("order", 3003)]. *)
Lemma package_json_ascii_order :
  (create_service repo upper_ascii title_ascii "order" 3003 (World fs_repo [])).1
  = inr tt ∧
  ∃ doc,
    read_file
      (w_fs (create_service repo upper_ascii title_ascii "order" 3003
               (World fs_repo [])).2)
      (service_dir repo "order" /: "package.json") = Some doc ∧
    all_chars (λ c, is_printable c || bool_decide (c = LF)) doc = true.
Proof.
  assert ((create_service repo upper_ascii title_ascii "order" 3003
             (World fs_repo [])).1 = inr tt) as R by (vm_compute; reflexivity).
  split; [exact R|].
  exact (package_json_ascii repo upper_ascii title_ascii "order" 3003
           (World fs_repo []) R).
Defined.

(** [imports_resolve] at [scaffold("order", 3003)]. *)
Lemma imports_resolve_order :
  (create_service repo upper_ascii title_ascii "order" 3003 (World fs_repo [])).1
  = inr tt ∧
  let fs' := w_fs (create_service repo upper_ascii title_ascii "order" 3003
                     (World fs_repo [])).2 in
  let sd := service_dir repo "order" in
  (∃ js, read_file fs' (sd /: "index.js") = Some js ∧
         has_line ("import createApp from " +:+ q "./config/express.config.js" +:+ ";") js ∧
         read_file fs' (sd /: "./config/express.config.js") = Some express_config) ∧
  (∃ cfg, read_file fs' (sd /: "config" /: "express.config.js") = Some cfg ∧
          has_line ("import routes from " +:+ q "../index.route.js" +:+ ";") cfg ∧
          read_file fs' (sd /: "config" /: "../index.route.js") = Some index_route).
Proof.
  assert ((create_service repo upper_ascii title_ascii "order" 3003
             (World fs_repo [])).1 = inr tt) as R by (vm_compute; reflexivity).
  split; [exact R|].
  exact (imports_resolve repo upper_ascii title_ascii "order" 3003 (World fs_repo []) R).
Defined.

(** [json_round_trip] at a dictionary with a list and an empty
    dictionary in it. *)
Lemma json_round_trip_nested :
  let v := JDict [ ("name", JStr "order-service");
                   ("keywords", JList [JStr "a"; JNull; JBool true; JList []]);
                   ("scripts", JDict []) ] in
  no_numbers v = true ∧ json_loads (json_dumps v) = Some v.
Proof.
  intros v. split; [reflexivity|].
  exact (json_round_trip v eq_refl).
Defined.


(** [port_white_space] at the port argument [" 3003 "]. *)
Lemma port_white_space_order :
  (all_chars is_space " " = true ∧ all_chars is_space " " = true) ∧
  run repo int_latin1 upper_ascii title_ascii
      ["scripts/create-service.py"; "order"; " " +:+ "3003" +:+ " "] fs_repo
  = run repo int_latin1 upper_ascii title_ascii
        ["scripts/create-service.py"; "order"; "3003"] fs_repo.
Proof.
  split; [by split|].
  exact (port_white_space repo "scripts/create-service.py" "order" " " "3003" " "
           fs_repo eq_refl eq_refl).
Defined.

